(** * Fluency-English: the live voice-conversation pipeline and the history store

    A shallow embedding of the audio helpers, the playback scheduler, the
    session lifecycle and the capture path of the live-conversation
    component, of the base64 helper of the service layer, and of the history
    service, together with the properties the specification states about
    them. *)

From Stdlib Require Import ZArith NArith List String Ascii Lia ZifyNat.
From Stdlib Require Import QArith Qminmax Reals Lra Sorted.
From Stdlib.Strings Require Import Byte.
From stdpp Require Import base gmap strings list.

Open Scope string_scope.

(* ===================================================================== *)
(** * Host platform primitives *)
(* ===================================================================== *)

(** The code relies on a few built-ins of the JavaScript host: binary
    strings, [btoa]/[atob], typed-array stores.  They are not code of the
    repository; they are written here after the ECMAScript and HTML
    standards so that the repository's functions can be run. *)
Module JS.

(** A binary string is a string whose code units are all below 256; the
    8-bit characters of [string] are exactly those code units. *)
Definition fromCharCode (b : byte) : string := String (ascii_of_byte b) "".

(** [s.charCodeAt(i)], for [i] inside the string. *)
Definition charCodeAt (s : string) (i : nat) : option N :=
  match String.get i s with
  | Some c => Some (N_of_ascii c)
  | None => None
  end.

(** Storing a number into a [Uint8Array] keeps its low 8 bits. *)
Definition toUint8 (n : N) : byte :=
  byte_of_ascii (ascii_of_N (n mod 256)).

(** ** The base64 alphabet (RFC 4648, section 4) *)

Definition alphabet : string :=
  "ABCDEFGHIJKLMNOPQRSTUVWXYZabcdefghijklmnopqrstuvwxyz0123456789+/".

Definition pad : ascii := "="%char.

Definition char_of_sextet (n : N) : ascii :=
  match String.get (N.to_nat n) alphabet with
  | Some c => c
  | None => pad
  end.

Definition sextet_of_char (c : ascii) : option N :=
  let n := N_of_ascii c in
  if (65 <=? n)%N && (n <=? 90)%N then Some (n - 65)%N
  else if (97 <=? n)%N && (n <=? 122)%N then Some (n - 71)%N
  else if (48 <=? n)%N && (n <=? 57)%N then Some (n + 4)%N
  else if (n =? 43)%N then Some 62%N
  else if (n =? 47)%N then Some 63%N
  else None.

(** ** [btoa]: three octets become four sextets, most significant first *)

Fixpoint octets_to_sextets (l : list N) : list N :=
  match l with
  | [] => []
  | [x] => [x / 4; (x mod 4) * 16]%N
  | [x; y] => [x / 4; (x mod 4) * 16 + y / 16; (y mod 16) * 4]%N
  | x :: y :: z :: r =>
      (x / 4 :: (x mod 4) * 16 + y / 16 :: (y mod 16) * 4 + z / 64
         :: z mod 64 :: octets_to_sextets r)%N
  end.

(** The output is padded with [=] to a multiple of four characters. *)
Definition padding (n : nat) : list ascii :=
  match (n mod 3)%nat with
  | 1%nat => [pad; pad]
  | 2%nat => [pad]
  | _ => []
  end.

(** [btoa] raises [InvalidCharacterError] on a code unit above 255; a
    [string] has none, so here it is total. *)
Definition btoa (s : string) : string :=
  let octets := map N_of_ascii (list_ascii_of_string s) in
  string_of_list_ascii
    (map char_of_sextet (octets_to_sextets octets)
       ++ padding (length octets)).

(** ** [atob]: the forgiving-base64 decode of the HTML standard *)

Definition is_ascii_whitespace (c : ascii) : bool :=
  let n := N_of_ascii c in
  ((n =? 9) || (n =? 10) || (n =? 12) || (n =? 13) || (n =? 32))%N.

Definition is_pad (c : ascii) : bool := Ascii.eqb c pad.

(** Remove one or two trailing [=] when the length is a multiple of 4. *)
Definition strip_padding (l : list ascii) : list ascii :=
  if (length l mod 4 =? 0)%nat then
    match rev l with
    | c1 :: c2 :: r =>
        if is_pad c1 then (if is_pad c2 then rev r else rev (c2 :: r)) else l
    | _ => l
    end
  else l.

Fixpoint sextets (l : list ascii) : option (list N) :=
  match l with
  | [] => Some []
  | c :: r =>
      match sextet_of_char c, sextets r with
      | Some n, Some ns => Some (n :: ns)
      | _, _ => None
      end
  end.

(** Four sextets give three octets; of 18 leftover bits the last two are
    discarded, of 12 leftover bits the last four. *)
Fixpoint sextets_to_octets (l : list N) : list N :=
  match l with
  | a :: b :: c :: d :: r =>
      (a * 4 + b / 16 :: (b mod 16) * 16 + c / 4 :: (c mod 4) * 64 + d
         :: sextets_to_octets r)%N
  | [a; b; c] => [a * 4 + b / 16; (b mod 16) * 16 + c / 4]%N
  | [a; b] => [a * 4 + b / 16]%N
  | _ => []
  end.

(** [None] stands for the [InvalidCharacterError] that [atob] raises. *)
Definition atob (s : string) : option string :=
  let data :=
    strip_padding
      (List.filter (fun c => negb (is_ascii_whitespace c))
                   (list_ascii_of_string s)) in
  if (length data mod 4 =? 1)%nat then None
  else
    match sextets data with
    | Some ns =>
        Some (string_of_list_ascii (map ascii_of_N (sextets_to_octets ns)))
    | None => None
    end.

(** ** Errors, numbers and typed arrays *)

Inductive Error :=
| InvalidCharacterError   (* [atob] on a malformed string *)
| RangeError              (* [Int16Array] over an odd number of octets *)
| NotSupportedError       (* [createBuffer] with zero frames *)
| NotAllowedError         (* [getUserMedia] refused *)
| TransportFailure        (* the connection could not be established *)
| TypeError               (* the spread of a value that is not iterable *)
| QuotaExceededError.     (* [localStorage.setItem] refused *)

(** The outcome of a call that may raise. *)
Inductive Result (A : Type) :=
| Done (a : A)
| Throw (e : Error).
Arguments Done {A} a.
Arguments Throw {A} e.

Definition bind {A B} (r : Result A) (k : A -> Result B) : Result B :=
  match r with
  | Done a => k a
  | Throw e => Throw e
  end.

(** Numbers are taken as exact rationals: a 32-bit float sample, its
    product with a power of two and a multiple of 1/24000 are all
    rationals; rounding of the 64-bit arithmetic is left out. *)
Definition Math_max (a b : Q) : Q := Qmax a b.

Definition Math_sqrt (q : Q) : R := sqrt (Q2R q).

(** Truncation towards zero. *)
Definition truncate (q : Q) : Z := Z.quot (Qnum q) (Zpos (Qden q)).

(** [ToInt16]: truncate, reduce modulo 2^16, read as two's complement.
    This is what a store into an [Int16Array] does to a finite number. *)
Definition ToInt16 (q : Q) : Z :=
  let int16bit := (truncate q mod 65536)%Z in
  if (32768 <=? int16bit)%Z then (int16bit - 65536)%Z else int16bit.

(** [new Uint8Array(int16.buffer)]: two octets per sample, low octet
    first. *)
Definition Int16_octets (z : Z) : list byte :=
  let u := Z.to_N (z mod 65536)%Z in
  [toUint8 (u mod 256); toUint8 (u / 256)]%N.

Definition Uint8Array_of_Int16Array (int16 : list Z) : list byte :=
  flat_map Int16_octets int16.

Definition Int16_of_octets (lo hi : byte) : Z :=
  let u := (Z.of_N (Byte.to_N lo) + 256 * Z.of_N (Byte.to_N hi))%Z in
  if (32768 <=? u)%Z then (u - 65536)%Z else u.

(** [new Int16Array(bytes.buffer)]: a [RangeError] unless the byte length
    is a multiple of two. *)
Fixpoint Int16Array_of_buffer (bytes : list byte) : Result (list Z) :=
  match bytes with
  | [] => Done []
  | [_] => Throw RangeError
  | lo :: hi :: r =>
      bind (Int16Array_of_buffer r)
           (fun rest => Done (Int16_of_octets lo hi :: rest))
  end.

(** ** [Array.prototype.sort] with a comparator *)

(** The sort is stable, and for a consistent comparator its result does not
    depend on the algorithm: an insertion sort that puts an element before
    the first one it does not compare greater than.  [cmp a b] is the number
    the comparator returns. *)
Fixpoint Array_insert {A} (cmp : A -> A -> Q) (x : A) (l : list A) : list A :=
  match l with
  | [] => [x]
  | y :: l' => if Qle_bool (cmp x y) 0 then x :: l
               else y :: Array_insert cmp x l'
  end.

Definition Array_sort {A} (cmp : A -> A -> Q) (l : list A) : list A :=
  fold_right (Array_insert cmp) [] l.

End JS.

Notation "'do' x <- e ;; k" := (JS.bind e (fun x => k))
  (at level 10, x name, e at level 99, k at level 200,
   format "'do'  x  <-  e  ;;  '//' k").

(* ===================================================================== *)
(** * The live-conversation component: audio helpers *)
(* ===================================================================== *)

Module LiveConversation.

(** [Uint8Array]: a sequence of octets. *)
Definition Uint8Array := list byte.

(** [encodePCM]: the loop appends one character per octet, then [btoa]. *)
Definition encodePCM (bytes : Uint8Array) : string :=
  let binary :=
    fold_left (fun binary b => binary ++ JS.fromCharCode b) bytes "" in
  JS.btoa binary.

(** [decodeAudio]: [atob], then a zero-filled array of the string's length
    is filled index by index from [charCodeAt]. *)
Definition decodeAudio (base64 : string) : option Uint8Array :=
  match JS.atob base64 with
  | None => None
  | Some binaryString =>
      let len := String.length binaryString in
      let bytes := replicate len x00 in
      Some (fold_left
              (fun (bytes : list byte) i =>
                 match JS.charCodeAt binaryString i with
                 | Some n => <[i := JS.toUint8 n]> bytes
                 | None => bytes
                 end)
              (seq 0 len) bytes)
  end.

(** ** Playback of inbound audio *)

(** An [AudioBuffer] with one channel. *)
Record AudioBuffer := {
  channelData : list Q;
  sampleRate : positive }.

(** [buffer.duration]: frames over sample rate, in seconds. *)
Definition duration (buffer : AudioBuffer) : Q :=
  Z.of_nat (length (channelData buffer)) # sampleRate buffer.

(** [outputCtx.createBuffer(1, frameCount, rate)]: silence, and a
    [NotSupportedError] for a buffer of no frames. *)
Definition createBuffer (frameCount : nat) (rate : positive)
  : JS.Result AudioBuffer :=
  if (frameCount =? 0)%nat then JS.Throw JS.NotSupportedError
  else JS.Done {| channelData := replicate frameCount 0%Q;
                  sampleRate := rate |}.

(** Decode PCM to an [AudioBuffer]: the 16-bit view of the octets, a
    buffer of as many frames at 24 kHz, each sample divided by 32768. *)
Definition pcmToAudioBuffer (audioData : Uint8Array)
  : JS.Result AudioBuffer :=
  do dataInt16 <- JS.Int16Array_of_buffer audioData ;;
  let frameCount := length dataInt16 in
  do buffer <- createBuffer frameCount 24000 ;;
  JS.Done {| channelData :=
               map (fun sample => inject_Z sample / 32768)%Q dataInt16;
             sampleRate := sampleRate buffer |}.

(** A source node: its identity, its buffer, and the time it was started
    at. *)
Record AudioBufferSourceNode := {
  node : nat;
  buffer : AudioBuffer;
  when : Q }.

(** The two refs of the playback path, with what the output context has
    been asked to do: every [source.start(when)] in call order, and the
    nodes [stop()] was called on.  No other handler of the component
    touches these. *)
Record Playback := {
  nextStartTimeRef : Q;
  sourcesRef : gset nat;
  started : list AudioBufferSourceNode;
  stopped : gset nat }.

Definition initialPlayback : Playback :=
  {| nextStartTimeRef := 0; sourcesRef := ∅; started := []; stopped := ∅ |}.

(** Play Audio: the block that schedules one buffer. *)
Definition playAudio (currentTime : Q) (buffer : AudioBuffer) (p : Playback)
  : Playback :=
  let nextStartTime := JS.Math_max (nextStartTimeRef p) currentTime in
  let source := length (started p) in
  {| nextStartTimeRef := (nextStartTime + duration buffer)%Q;
     sourcesRef := sourcesRef p ∪ {[ source ]};
     started := started p ++ [ {| node := source;
                                  buffer := buffer;
                                  when := nextStartTime |} ];
     stopped := stopped p |}.

(** [source.onended]. *)
Definition onended (source : nat) (p : Playback) : Playback :=
  {| nextStartTimeRef := nextStartTimeRef p;
     sourcesRef := sourcesRef p ∖ {[ source ]};
     started := started p;
     stopped := stopped p |}.

(** The [interrupted] branch. *)
Definition onInterrupted (p : Playback) : Playback :=
  {| nextStartTimeRef := 0;
     sourcesRef := ∅;
     started := started p;
     stopped := stopped p ∪ sourcesRef p |}.

(** What the handler reads of a server message: the data of the first
    inline part, if any, and the interruption flag. *)
Record LiveServerMessage := {
  inlineData : option string;
  interrupted : bool }.

(** The message handler.  [currentTime] is [outputCtx.currentTime] when
    the handler runs; an exception rejects the handler's promise and
    leaves the refs as they were. *)
Definition onMessage (currentTime : Q) (message : LiveServerMessage)
    (p : Playback) : JS.Result Playback :=
  do p1 <- match inlineData message with
        | Some base64Audio =>
            if String.eqb base64Audio "" then JS.Done p
            else
              match decodeAudio base64Audio with
              | None => JS.Throw JS.InvalidCharacterError
              | Some audioData =>
                  do buffer <- pcmToAudioBuffer audioData ;;
                  JS.Done (playAudio currentTime buffer p)
              end
        | None => JS.Done p
        end ;;
  JS.Done (if interrupted message then onInterrupted p1 else p1).

Inductive PlaybackEvent :=
| Message (currentTime : Q) (message : LiveServerMessage)
| Ended (source : nat).

Definition playbackStep (e : PlaybackEvent) (p : Playback)
  : JS.Result Playback :=
  match e with
  | Message currentTime message => onMessage currentTime message p
  | Ended source => JS.Done (onended source p)
  end.

Fixpoint playbackRun (es : list PlaybackEvent) (p : Playback)
  : JS.Result Playback :=
  match es with
  | [] => JS.Done p
  | e :: es' => do p' <- playbackStep e p ;; playbackRun es' p'
  end.

(** ** Capture: one frame of microphone samples *)

(** The loudness shown by the visualizer. *)
Definition frameVolume (inputData : list Q) : R :=
  let sum := fold_left (fun sum x => sum + x * x)%Q inputData 0%Q in
  JS.Math_sqrt (sum / inject_Z (Z.of_nat (length inputData))).

(** The store [int16[i] = inputData[i] * 32768]. *)
Definition floatToInt16 (x : Q) : Z := JS.ToInt16 (x * 32768).

Definition framePCM (inputData : list Q) : string :=
  let int16 := map floatToInt16 inputData in
  encodePCM (JS.Uint8Array_of_Int16Array int16).

(** ** The session: status, refs, and the host objects they point to *)

Inductive Status := idle | connecting | connected | error.

Record RealtimeInput := {
  mimeType : string;
  data : string }.

(** The promise of a session.  A pending promise holds the reactions
    registered by [then]; each reaction of this component sends one
    payload.  The promise that [then] returns is kept by nobody: when the
    session promise is rejected it is rejected too, with no handler, and the
    host reports it (an [unhandledrejection] event). *)
Inductive Promise :=
| Pending (reactions : list RealtimeInput)
| Fulfilled
| Rejected.

Record Host := {
  liveStreams : gset nat;      (* streams whose tracks are not stopped *)
  openContexts : gset nat;     (* audio contexts not closed *)
  promises : gmap nat Promise; (* the session promises, by identity *)
  outbox : list (nat * RealtimeInput); (* [sendRealtimeInput] calls *)
  unhandledRejections : list (nat * RealtimeInput);
    (* the rejected promises of [then] that have no handler, each with the
       session promise it derives from and the payload of its reaction *)
  fresh : nat }.

Record Session := {
  status : Status;
  volume : R;
  streamRef : option nat;
  audioContextRef : option nat;
  sessionRef : option nat;
  sessionPromiseRef : option nat;
  onaudioprocessSet : bool;       (* the capture handler is installed *)
  host : Host }.

Definition initialSession : Session :=
  {| status := idle; volume := 0%R;
     streamRef := None; audioContextRef := None;
     sessionRef := None; sessionPromiseRef := None;
     onaudioprocessSet := false;
     host := {| liveStreams := ∅; openContexts := ∅; promises := ∅;
                outbox := []; unhandledRejections := []; fresh := 0 |} |}.

Definition setStatus (st : Status) (s : Session) : Session :=
  {| status := st; volume := volume s;
     streamRef := streamRef s; audioContextRef := audioContextRef s;
     sessionRef := sessionRef s; sessionPromiseRef := sessionPromiseRef s;
     onaudioprocessSet := onaudioprocessSet s; host := host s |}.

Definition setVolume (v : R) (s : Session) : Session :=
  {| status := status s; volume := v;
     streamRef := streamRef s; audioContextRef := audioContextRef s;
     sessionRef := sessionRef s; sessionPromiseRef := sessionPromiseRef s;
     onaudioprocessSet := onaudioprocessSet s; host := host s |}.

Definition setHost (h : Host) (s : Session) : Session :=
  {| status := status s; volume := volume s;
     streamRef := streamRef s; audioContextRef := audioContextRef s;
     sessionRef := sessionRef s; sessionPromiseRef := sessionPromiseRef s;
     onaudioprocessSet := onaudioprocessSet s; host := h |}.

(** [startSession], first part: the status, then the two audio contexts
    and the ref to the output one; the function then awaits the
    microphone. *)
Definition startSession_contexts (s : Session) : Session :=
  let h := host s in
  let inputCtx := fresh h in
  let outputCtx := S (fresh h) in
  {| status := connecting; volume := volume s;
     streamRef := streamRef s;
     audioContextRef := Some outputCtx;
     sessionRef := sessionRef s; sessionPromiseRef := sessionPromiseRef s;
     onaudioprocessSet := onaudioprocessSet s;
     host := {| liveStreams := liveStreams h;
                openContexts := openContexts h ∪ {[ inputCtx; outputCtx ]};
                promises := promises h;
                outbox := outbox h;
                unhandledRejections := unhandledRejections h;
                fresh := S (S (fresh h)) |} |}.

(** [startSession] when the second constructor throws: the status is set
    and the input context is created and left open; the ref to the output
    context is not written. *)
Definition startSession_inputContext (s : Session) : Session :=
  let h := host s in
  let inputCtx := fresh h in
  {| status := connecting; volume := volume s;
     streamRef := streamRef s;
     audioContextRef := audioContextRef s;
     sessionRef := sessionRef s; sessionPromiseRef := sessionPromiseRef s;
     onaudioprocessSet := onaudioprocessSet s;
     host := {| liveStreams := liveStreams h;
                openContexts := openContexts h ∪ {[ inputCtx ]};
                promises := promises h;
                outbox := outbox h;
                unhandledRejections := unhandledRejections h;
                fresh := S (fresh h) |} |}.

(** [startSession], second part: the microphone stream is granted and
    kept in its ref, the capture graph is wired, the connection is
    started and its promise kept in its ref; the function then awaits
    that promise. *)
Definition startSession_connect (s : Session) : Session :=
  let h := host s in
  let stream := fresh h in
  let sessionPromise := S (fresh h) in
  {| status := status s; volume := volume s;
     streamRef := Some stream;
     audioContextRef := audioContextRef s;
     sessionRef := sessionRef s;
     sessionPromiseRef := Some sessionPromise;
     onaudioprocessSet := onaudioprocessSet s;
     host := {| liveStreams := liveStreams h ∪ {[ stream ]};
                openContexts := openContexts h;
                promises := <[ sessionPromise := Pending [] ]> (promises h);
                outbox := outbox h;
                unhandledRejections := unhandledRejections h;
                fresh := S (S (fresh h)) |} |}.

(** [startSession], last part: the awaited session is kept in its ref. *)
Definition startSession_session (session : nat) (s : Session) : Session :=
  {| status := status s; volume := volume s;
     streamRef := streamRef s; audioContextRef := audioContextRef s;
     sessionRef := Some session; sessionPromiseRef := sessionPromiseRef s;
     onaudioprocessSet := onaudioprocessSet s; host := host s |}.

(** The [catch] block of [startSession]. *)
Definition startSession_catch (s : Session) : Session :=
  setStatus error s.

(** The [onOpen] callback: the status, and the capture handler. *)
Definition onOpen (s : Session) : Session :=
  let s := setStatus connected s in
  {| status := status s; volume := volume s;
     streamRef := streamRef s; audioContextRef := audioContextRef s;
     sessionRef := sessionRef s; sessionPromiseRef := sessionPromiseRef s;
     onaudioprocessSet := true; host := host s |}.

Definition onClose (s : Session) : Session := setStatus idle s.

Definition onError (s : Session) : Session := setStatus error s.

(** [stopSession]: the tracks of the stream in the ref are stopped, the
    context in the ref is closed, the status is set. *)
Definition stopSession (s : Session) : Session :=
  let h := host s in
  let h1 :=
    match streamRef s with
    | Some stream =>
        {| liveStreams := liveStreams h ∖ {[ stream ]};
           openContexts := openContexts h; promises := promises h;
           outbox := outbox h;
           unhandledRejections := unhandledRejections h;
           fresh := fresh h |}
    | None => h
    end in
  let h2 :=
    match audioContextRef s with
    | Some ctx =>
        {| liveStreams := liveStreams h1;
           openContexts := openContexts h1 ∖ {[ ctx ]};
           promises := promises h1;
           outbox := outbox h1;
           unhandledRejections := unhandledRejections h1;
           fresh := fresh h1 |}
    | None => h1
    end in
  setStatus idle (setHost h2 s).

(** [promise.then(session => session.sendRealtimeInput(input))]: on a
    pending promise the reaction is queued, on a fulfilled one it runs once
    the handler returns, on a rejected one it never runs: the promise that
    [then] returns is rejected instead, and nothing handles it. *)
Definition promise_then (promise : nat) (input : RealtimeInput) (h : Host)
  : Host :=
  match promises h !! promise with
  | Some (Pending reactions) =>
      {| liveStreams := liveStreams h; openContexts := openContexts h;
         promises := <[ promise := Pending (reactions ++ [input]) ]>
                       (promises h);
         outbox := outbox h;
         unhandledRejections := unhandledRejections h;
         fresh := fresh h |}
  | Some Fulfilled =>
      {| liveStreams := liveStreams h; openContexts := openContexts h;
         promises := promises h;
         outbox := outbox h ++ [(promise, input)];
         unhandledRejections := unhandledRejections h;
         fresh := fresh h |}
  | Some Rejected =>
      {| liveStreams := liveStreams h; openContexts := openContexts h;
         promises := promises h;
         outbox := outbox h;
         unhandledRejections := unhandledRejections h ++ [(promise, input)];
         fresh := fresh h |}
  | None => h
  end.

(** The capture handler. *)
Definition onaudioprocess (inputData : list Q) (s : Session) : Session :=
  let s := setVolume (frameVolume inputData) s in
  let pcmData := framePCM inputData in
  match sessionPromiseRef s with
  | Some promise =>
      setHost (promise_then promise
                 {| mimeType := "audio/pcm;rate=16000"; data := pcmData |}
                 (host s)) s
  | None => s
  end.

(** The host settles a session promise: its reactions run in the order
    they were registered when it is fulfilled; when it is rejected none
    runs, and the promise [then] returned for each is rejected with no
    handler.  [startSession] awaits the promise: it resumes with the
    session, or in its [catch] block. *)
Definition settle (promise : nat) (ok : bool) (s : Session) : Session :=
  let h := host s in
  match promises h !! promise with
  | Some (Pending reactions) =>
      if ok then
        startSession_session promise
          (setHost
             {| liveStreams := liveStreams h; openContexts := openContexts h;
                promises := <[ promise := Fulfilled ]> (promises h);
                outbox := outbox h ++ map (pair promise) reactions;
                unhandledRejections := unhandledRejections h;
                fresh := fresh h |} s)
      else
        startSession_catch
          (setHost
             {| liveStreams := liveStreams h; openContexts := openContexts h;
                promises := <[ promise := Rejected ]> (promises h);
                outbox := outbox h;
                unhandledRejections :=
                  unhandledRejections h ++ map (pair promise) reactions;
                fresh := fresh h |} s)
  | _ => s
  end.

Inductive SessionEvent :=
| ClickStart                     (* [startSession] up to its first await *)
| ContextFailure                 (* the input context cannot be created *)
| UserMedia (granted : bool)     (* the microphone request settles *)
| Settle (promise : nat) (ok : bool)
| Open
| Close
| TransportError
| ClickStop
| AudioProcess (inputData : list Q)
| OutputContextFailure.          (* the output context cannot be created *)

Definition sessionStep (e : SessionEvent) (s : Session) : Session :=
  match e with
  | ClickStart => startSession_contexts s
  | ContextFailure => startSession_catch (setStatus connecting s)
  | UserMedia true => startSession_connect s
  | UserMedia false => startSession_catch s
  | Settle promise ok => settle promise ok s
  | Open => onOpen s
  | Close => onClose s
  | TransportError => onError s
  | ClickStop => stopSession s
  | AudioProcess inputData =>
      if onaudioprocessSet s then onaudioprocess inputData s else s
  | OutputContextFailure => startSession_catch (startSession_inputContext s)
  end.

Definition sessionRun (es : list SessionEvent) (s : Session) : Session :=
  fold_left (fun s e => sessionStep e s) es s.

(** The button the view offers in each status. *)
Inductive Button := StartConversation | EndCall.

Definition button (st : Status) : Button :=
  match st with
  | idle | error => StartConversation
  | connecting | connected => EndCall
  end.

(** Each message is handled on its own: a handler that throws rejects its
    promise before it has written to a ref, and the next event is handled
    from the same refs. *)
Definition playbackDeliver (e : PlaybackEvent) (p : Playback) : Playback :=
  match playbackStep e p with
  | JS.Done p' => p'
  | JS.Throw _ => p
  end.

Definition playbackDeliverAll (es : list PlaybackEvent) (p : Playback)
  : Playback :=
  fold_left (fun p e => playbackDeliver e p) es p.

(** ** The visualizer *)

(** The rounded rectangle that [drawVisualizer] fills on a canvas of the
    given size: [roundRect(x, y, 20, barHeight, 10)]. *)
Record RoundRect := {
  rect_x : R;
  rect_y : R;
  rect_w : R;
  rect_h : R;
  rect_radii : R }.

Definition drawVisualizer (width height : R) (volume : R) : RoundRect :=
  let barHeight := Rmin height (volume * 5 * height) in
  let x := ((width - 20) / 2)%R in
  let y := ((height - barHeight) / 2)%R in
  {| rect_x := x; rect_y := y; rect_w := 20; rect_h := barHeight;
     rect_radii := 10 |}.

End LiveConversation.

(* ===================================================================== *)
(** * The service layer: the base64 helper *)
(* ===================================================================== *)

Module GeminiService.

(** An [ArrayBuffer] is its octets; [new Uint8Array(buffer)] views them. *)
Record ArrayBuffer := { buffer_bytes : list byte }.

Definition new_Uint8Array (buffer : ArrayBuffer) : list byte :=
  buffer_bytes buffer.

Definition arrayBufferToBase64 (buffer : ArrayBuffer) : string :=
  let bytes := new_Uint8Array buffer in
  let binary :=
    fold_left (fun binary b => binary ++ JS.fromCharCode b) bytes "" in
  JS.btoa binary.

(** What a call of the service can fail with. *)
Inductive ServiceError :=
| CallFailed                      (* [generateContent] rejected *)
| NoAudioData                     (* "No audio data returned" *)
| HostError (e : JS.Error)        (* an exception of a host function *)
| CouldNotTranscribe.             (* "Could not transcribe audio." *)

Inductive Reply (A : Type) :=
| Returns (a : A)
| Rejects (e : ServiceError).
Arguments Returns {A} a.
Arguments Rejects {A} e.

(** The request of [generateSpeech]. *)
Record SpeechRequest := {
  speech_model : string;
  speech_text : string;
  speech_voiceName : string }.

(** [generateSpeech].  [generateContent] stands for the remote model: it
    rejects ([None]) or answers with the inline data of the first part of the
    first candidate, if there is one.  Every failure is logged and thrown
    again. *)
Definition generateSpeech
    (generateContent : SpeechRequest -> option (option string))
    (text : string) : Reply ArrayBuffer :=
  match generateContent {| speech_model := "gemini-2.5-flash-preview-tts";
                           speech_text := text;
                           speech_voiceName := "Kore" |} with
  | None => Rejects CallFailed
  | Some None => Rejects NoAudioData
  | Some (Some base64Audio) =>
      if String.eqb base64Audio "" then Rejects NoAudioData
      else
        match JS.atob base64Audio with
        | None => Rejects (HostError JS.InvalidCharacterError)
        | Some binaryString =>
            let len := String.length binaryString in
            let bytes := replicate len x00 in
            Returns
              {| buffer_bytes :=
                   fold_left
                     (fun (bytes : list byte) i =>
                        match JS.charCodeAt binaryString i with
                        | Some n => <[i := JS.toUint8 n]> bytes
                        | None => bytes
                        end)
                     (seq 0 len) bytes |}
        end
  end.

(** A [Blob]: its media type and its octets. *)
Record Blob := {
  blob_type : string;
  blob_bytes : list byte }.

(** The request of [transcribeAudio]: the inline audio part and the text
    part. *)
Record TranscribeRequest := {
  transcribe_model : string;
  transcribe_mimeType : string;
  transcribe_data : string;
  transcribe_text : string }.

Definition transcribeRequest (audioBlob : Blob) : TranscribeRequest :=
  let buffer := {| buffer_bytes := blob_bytes audioBlob |} in
  let base64Data := arrayBufferToBase64 buffer in
  {| transcribe_model := "gemini-2.5-flash";
     transcribe_mimeType := blob_type audioBlob;
     transcribe_data := base64Data;
     transcribe_text :=
       "Transcribe this audio exactly as spoken. Return only the transcription." |}.

(** [transcribeAudio]: the answer's text, or the empty string when it has
    none; every failure becomes the same error. *)
Definition transcribeAudio
    (generateContent : TranscribeRequest -> option (option string))
    (audioBlob : Blob) : Reply string :=
  match generateContent (transcribeRequest audioBlob) with
  | None => Rejects CouldNotTranscribe
  | Some None => Returns ""
  | Some (Some text) => Returns text
  end.

End GeminiService.

(* ===================================================================== *)
(** * The history service *)
(* ===================================================================== *)

Module HistoryService.

Definition STORAGE_KEY : string := "fluentai_history_v1".

(** What [JSON.parse] returns when it runs.  The cast [as HistoryItem[]] of
    [getHistory] is erased, so the value read from the store need not be an
    array: [null], a boolean, a number and an object parse as well.  The
    spread of [saveHistoryItem] tells them apart: an array is iterated, the
    others are not iterable.  (A string, the one other iterable that
    [JSON.parse] returns, holds characters and no items; it has no place
    among lists of items and is left out, as are arrays of other things than
    items.) *)
Inductive JSONValue (HistoryItem : Type) :=
| JSONArray (items : list HistoryItem)
| NotIterable.

Arguments JSONArray {HistoryItem} items.
Arguments NotIterable {HistoryItem}.

(** [JSON.parse] at the declared type of [getHistory]: a value that is not
    an array has no reading at that type. *)
Definition declared {HistoryItem : Type}
    (JSON_parse : string -> option (JSONValue HistoryItem))
    (json : string) : option (list HistoryItem) :=
  match JSON_parse json with
  | Some (JSONArray items) => Some items
  | Some NotIterable => None
  | None => None
  end.

(** The code units a store holds, over its keys and values, and a user
    agent that allows a store [quota] of them. *)
Definition storageSize (localStorage : gmap string string) : nat :=
  map_fold (fun key value n => String.length key + String.length value + n)
           0%nat localStorage.

Definition sizeQuota (quota : nat) (key value : string)
    (localStorage : gmap string string) : bool :=
  (quota <? storageSize (<[ key := value ]> localStorage))%nat.

Section Service.

(** The service never looks inside an item; it only lists, serializes
    and parses them. *)
Context {HistoryItem : Type}.

(** [JSON.stringify] and [JSON.parse] at the type of item lists; [None]
    stands for the [SyntaxError] of [JSON.parse]. *)
Variable JSON_stringify : list HistoryItem -> string.
Variable JSON_parse : string -> option (list HistoryItem).

(** [localStorage]: string values under string keys. *)
Implicit Type localStorage : gmap string string.

Definition getHistory localStorage : list HistoryItem :=
  match localStorage !! STORAGE_KEY with
  | None => []
  | Some json =>
      if String.eqb json "" then []
      else
        match JSON_parse json with
        | Some items => items
        | None => []
        end
  end.

Definition clearHistory localStorage : gmap string string :=
  delete STORAGE_KEY localStorage.

End Service.

Section Saving.

Context {HistoryItem : Type}.

(** [JSON.stringify] at the type of item lists and [JSON.parse] as it runs;
    [None] stands for its [SyntaxError]. *)
Variable JSON_stringify : list HistoryItem -> string.
Variable JSON_parse : string -> option (JSONValue HistoryItem).

(** [localStorage.setItem] stores the value unless the user agent refuses
    it, which is its own choice (the quota is exceeded, storage is
    disabled): it then throws a [QuotaExceededError] and stores nothing. *)
Variable quotaExceeded : string -> string -> gmap string string -> bool.

Implicit Type localStorage : gmap string string.

Definition setItem (key value : string) localStorage
  : JS.Result (gmap string string) :=
  if quotaExceeded key value localStorage
  then JS.Throw JS.QuotaExceededError
  else JS.Done (<[ key := value ]> localStorage).

(** [getHistory] as it runs inside [saveHistoryItem]: the value it returns,
    before the cast.  Its own [try] turns a [SyntaxError] into the empty
    array. *)
Definition getHistory_value localStorage : JSONValue HistoryItem :=
  match localStorage !! STORAGE_KEY with
  | None => JSONArray []
  | Some json =>
      if String.eqb json "" then JSONArray []
      else
        match JSON_parse json with
        | Some value => value
        | None => JSONArray []
        end
  end.

(** The array literal [[item, ...existingHistory]]: a [TypeError] when the
    value is not iterable. *)
Definition spread (item : HistoryItem)
    (existingHistory : JSONValue HistoryItem)
  : JS.Result (list HistoryItem) :=
  match existingHistory with
  | JSONArray items => JS.Done (item :: items)
  | NotIterable => JS.Throw JS.TypeError
  end.

(** [saveHistoryItem]: what its [try] block throws is caught and logged, and
    the store is then as it was. *)
Definition saveHistoryItem (item : HistoryItem) localStorage
  : gmap string string :=
  let attempt :=
    let existingHistory := getHistory_value localStorage in
    do updatedHistory <- spread item existingHistory ;;
    let trimmedHistory := take 50 updatedHistory in
    setItem STORAGE_KEY (JSON_stringify trimmedHistory) localStorage in
  match attempt with
  | JS.Done localStorage' => localStorage'
  | JS.Throw _ => localStorage
  end.

End Saving.

(** Texts that [JSON.parse] reads as a value that is not iterable, for the
    sample parsers to tell from the texts they reject: [null], [true],
    [false], [{}] and the decimal numerals without sign or fraction. *)
Definition isDigit (c : ascii) : bool :=
  (48 <=? nat_of_ascii c)%nat && (nat_of_ascii c <=? 57)%nat.

Definition isNumeral (json : string) : bool :=
  match json with
  | EmptyString => false
  | String c rest =>
      if Ascii.eqb c "0"%char then String.eqb rest ""
      else isDigit c && forallb isDigit (list_ascii_of_string rest)
  end.

Definition notIterableText (json : string) : bool :=
  String.eqb json "null" || String.eqb json "true"
  || String.eqb json "false" || String.eqb json "{}" || isNumeral json.

(** A serializer of lists of characters, to run the service on; an item is
    one character. *)
Module Sample.

Definition stringify (items : list ascii) : string :=
  String "["%char (string_of_list_ascii items).

Definition parse (json : string) : option (JSONValue ascii) :=
  if notIterableText json then Some NotIterable
  else
    match json with
    | String c rest =>
        if Ascii.eqb c "["%char
        then Some (JSONArray (list_ascii_of_string rest))
        else None
    | EmptyString => None
    end.

End Sample.

End HistoryService.

(* ===================================================================== *)
(** * The shared types and constants *)
(* ===================================================================== *)

Module Types.

Inductive CEFRLevel := A1 | A2 | B1 | B2 | C1.

#[global] Instance CEFRLevel_eq_dec : EqDecision CEFRLevel.
Proof. solve_decision. Defined.

(** The value of an enum member is its name. *)
Definition levelString (l : CEFRLevel) : string :=
  match l with
  | A1 => "A1" | A2 => "A2" | B1 => "B1" | B2 => "B2" | C1 => "C1"
  end.

Record LevelDetails := {
  level_id : CEFRLevel;
  title : string;
  description : string;
  color : string }.

Record EvaluationResult := {
  grammar_correction : string;
  vocabulary_suggestions : string;
  sentence_structure_fix : string;
  strengths : list string;
  weaknesses : list string;
  score : Q;
  corrected_answer : string;
  professional_model_answer : string }.

Record HistoryItem := {
  item_id : string;
  timestamp : Q;
  levelId : CEFRLevel;
  topicName : string;
  item_question : string;
  item_userAnswer : string;
  item_evaluation : EvaluationResult }.

Inductive ViewState :=
| SPLASH | HOME | TOPICS | QUESTION | EVALUATION | LIVE_CONVERSATION
| HISTORY.

Record Topic := {
  topic_id : string;
  name : string;
  icon : string }.

End Types.

Module Constants.
Import Types.

Definition LEVELS : list LevelDetails :=
  [
    {| level_id := A1; title := "Beginner";
       description := "Basic phrases and everyday expressions.";
       color := "bg-green-100 text-green-800 border-green-200" |};
    {| level_id := A2; title := "Elementary";
       description := "Simple tasks and routine information.";
       color := "bg-emerald-100 text-emerald-800 border-emerald-200" |};
    {| level_id := B1; title := "Intermediate";
       description := "Standard input on familiar matters.";
       color := "bg-blue-100 text-blue-800 border-blue-200" |};
    {| level_id := B2; title := "Upper-Intermediate";
       description := "Complex text and technical discussions.";
       color := "bg-indigo-100 text-indigo-800 border-indigo-200" |};
    {| level_id := C1; title := "Advanced";
       description := "Demanding, longer texts and implicit meaning.";
       color := "bg-purple-100 text-purple-800 border-purple-200" |} ].

Definition TOPICS : list Topic :=
  [
    {| topic_id := "work"; name := "Work & Career"; icon := "💼" |};
    {| topic_id := "school"; name := "School & Education"; icon := "🎓" |};
    {| topic_id := "daily_life"; name := "Daily Life"; icon := "🏠" |};
    {| topic_id := "travel"; name := "Travel"; icon := "✈️" |};
    {| topic_id := "technology"; name := "Technology"; icon := "💻" |};
    {| topic_id := "family"; name := "Family & Friends"; icon := "👨‍👩‍👧‍👦" |};
    {| topic_id := "culture"; name := "Culture & Art"; icon := "🎨" |};
    {| topic_id := "food"; name := "Food & Dining"; icon := "🍽️" |};
    {| topic_id := "health"; name := "Health & Wellness"; icon := "🏥" |};
    {| topic_id := "news"; name := "Current Events"; icon := "📰" |} ].

End Constants.

(* ===================================================================== *)
(** * The application component *)
(* ===================================================================== *)

Module App.
Import Types Constants.

Inductive HistorySort := NEWEST | OLDEST | HIGHEST | LOWEST.

(** The state hooks of the component. *)
Record AppState := {
  view : ViewState;
  level : option LevelDetails;
  topic : option Topic;
  question : string;
  userAnswer : string;
  evaluation : option EvaluationResult;
  loading : bool;
  loadingText : string;
  quickTip : string;
  history : list HistoryItem;
  fromHistory : bool;
  historyFilterLevel : string;
  historySort : HistorySort;
  isRecording : bool }.

Definition setView (x : ViewState) (s : AppState) : AppState :=
  {| view := x;
     level := level s;
     topic := topic s;
     question := question s;
     userAnswer := userAnswer s;
     evaluation := evaluation s;
     loading := loading s;
     loadingText := loadingText s;
     quickTip := quickTip s;
     history := history s;
     fromHistory := fromHistory s;
     historyFilterLevel := historyFilterLevel s;
     historySort := historySort s;
     isRecording := isRecording s |}.

Definition setLevel (x : option LevelDetails) (s : AppState) : AppState :=
  {| view := view s;
     level := x;
     topic := topic s;
     question := question s;
     userAnswer := userAnswer s;
     evaluation := evaluation s;
     loading := loading s;
     loadingText := loadingText s;
     quickTip := quickTip s;
     history := history s;
     fromHistory := fromHistory s;
     historyFilterLevel := historyFilterLevel s;
     historySort := historySort s;
     isRecording := isRecording s |}.

Definition setTopic (x : option Topic) (s : AppState) : AppState :=
  {| view := view s;
     level := level s;
     topic := x;
     question := question s;
     userAnswer := userAnswer s;
     evaluation := evaluation s;
     loading := loading s;
     loadingText := loadingText s;
     quickTip := quickTip s;
     history := history s;
     fromHistory := fromHistory s;
     historyFilterLevel := historyFilterLevel s;
     historySort := historySort s;
     isRecording := isRecording s |}.

Definition setQuestion (x : string) (s : AppState) : AppState :=
  {| view := view s;
     level := level s;
     topic := topic s;
     question := x;
     userAnswer := userAnswer s;
     evaluation := evaluation s;
     loading := loading s;
     loadingText := loadingText s;
     quickTip := quickTip s;
     history := history s;
     fromHistory := fromHistory s;
     historyFilterLevel := historyFilterLevel s;
     historySort := historySort s;
     isRecording := isRecording s |}.

Definition setUserAnswer (x : string) (s : AppState) : AppState :=
  {| view := view s;
     level := level s;
     topic := topic s;
     question := question s;
     userAnswer := x;
     evaluation := evaluation s;
     loading := loading s;
     loadingText := loadingText s;
     quickTip := quickTip s;
     history := history s;
     fromHistory := fromHistory s;
     historyFilterLevel := historyFilterLevel s;
     historySort := historySort s;
     isRecording := isRecording s |}.

Definition setEvaluation (x : option EvaluationResult) (s : AppState) : AppState :=
  {| view := view s;
     level := level s;
     topic := topic s;
     question := question s;
     userAnswer := userAnswer s;
     evaluation := x;
     loading := loading s;
     loadingText := loadingText s;
     quickTip := quickTip s;
     history := history s;
     fromHistory := fromHistory s;
     historyFilterLevel := historyFilterLevel s;
     historySort := historySort s;
     isRecording := isRecording s |}.

Definition setLoading (x : bool) (s : AppState) : AppState :=
  {| view := view s;
     level := level s;
     topic := topic s;
     question := question s;
     userAnswer := userAnswer s;
     evaluation := evaluation s;
     loading := x;
     loadingText := loadingText s;
     quickTip := quickTip s;
     history := history s;
     fromHistory := fromHistory s;
     historyFilterLevel := historyFilterLevel s;
     historySort := historySort s;
     isRecording := isRecording s |}.

Definition setLoadingText (x : string) (s : AppState) : AppState :=
  {| view := view s;
     level := level s;
     topic := topic s;
     question := question s;
     userAnswer := userAnswer s;
     evaluation := evaluation s;
     loading := loading s;
     loadingText := x;
     quickTip := quickTip s;
     history := history s;
     fromHistory := fromHistory s;
     historyFilterLevel := historyFilterLevel s;
     historySort := historySort s;
     isRecording := isRecording s |}.

Definition setQuickTip (x : string) (s : AppState) : AppState :=
  {| view := view s;
     level := level s;
     topic := topic s;
     question := question s;
     userAnswer := userAnswer s;
     evaluation := evaluation s;
     loading := loading s;
     loadingText := loadingText s;
     quickTip := x;
     history := history s;
     fromHistory := fromHistory s;
     historyFilterLevel := historyFilterLevel s;
     historySort := historySort s;
     isRecording := isRecording s |}.

Definition setHistory (x : list HistoryItem) (s : AppState) : AppState :=
  {| view := view s;
     level := level s;
     topic := topic s;
     question := question s;
     userAnswer := userAnswer s;
     evaluation := evaluation s;
     loading := loading s;
     loadingText := loadingText s;
     quickTip := quickTip s;
     history := x;
     fromHistory := fromHistory s;
     historyFilterLevel := historyFilterLevel s;
     historySort := historySort s;
     isRecording := isRecording s |}.

Definition setFromHistory (x : bool) (s : AppState) : AppState :=
  {| view := view s;
     level := level s;
     topic := topic s;
     question := question s;
     userAnswer := userAnswer s;
     evaluation := evaluation s;
     loading := loading s;
     loadingText := loadingText s;
     quickTip := quickTip s;
     history := history s;
     fromHistory := x;
     historyFilterLevel := historyFilterLevel s;
     historySort := historySort s;
     isRecording := isRecording s |}.

Definition setHistoryFilterLevel (x : string) (s : AppState) : AppState :=
  {| view := view s;
     level := level s;
     topic := topic s;
     question := question s;
     userAnswer := userAnswer s;
     evaluation := evaluation s;
     loading := loading s;
     loadingText := loadingText s;
     quickTip := quickTip s;
     history := history s;
     fromHistory := fromHistory s;
     historyFilterLevel := x;
     historySort := historySort s;
     isRecording := isRecording s |}.

Definition setHistorySort (x : HistorySort) (s : AppState) : AppState :=
  {| view := view s;
     level := level s;
     topic := topic s;
     question := question s;
     userAnswer := userAnswer s;
     evaluation := evaluation s;
     loading := loading s;
     loadingText := loadingText s;
     quickTip := quickTip s;
     history := history s;
     fromHistory := fromHistory s;
     historyFilterLevel := historyFilterLevel s;
     historySort := x;
     isRecording := isRecording s |}.

Definition setIsRecording (x : bool) (s : AppState) : AppState :=
  {| view := view s;
     level := level s;
     topic := topic s;
     question := question s;
     userAnswer := userAnswer s;
     evaluation := evaluation s;
     loading := loading s;
     loadingText := loadingText s;
     quickTip := quickTip s;
     history := history s;
     fromHistory := fromHistory s;
     historyFilterLevel := historyFilterLevel s;
     historySort := historySort s;
     isRecording := x |}.

Definition initialState : AppState :=
  {| view := SPLASH; level := None; topic := None;
     question := ""; userAnswer := ""; evaluation := None;
     loading := false; loadingText := "Loading..."; quickTip := "";
     history := []; fromHistory := false;
     historyFilterLevel := "ALL"; historySort := NEWEST;
     isRecording := false |}.

(** [goBack]. *)
Definition goBack (s : AppState) : AppState :=
  match view s with
  | EVALUATION =>
      if fromHistory s then setFromHistory false (setView HISTORY s)
      else setView QUESTION s
  | QUESTION => setView Types.TOPICS s
  | Types.TOPICS => setView HOME s
  | LIVE_CONVERSATION => setView HOME s
  | HISTORY => setView HOME s
  | SPLASH | HOME => s
  end.

(** The back button is shown outside the home and splash views. *)
Definition backButtonShown (s : AppState) : bool :=
  match view s with
  | HOME | SPLASH => false
  | _ => true
  end.

(** The questions to avoid: those of the stored items of the level and the
    topic, the 15 most recent. *)
Definition previousQuestions (savedHistory : list HistoryItem)
    (level : LevelDetails) (selectedTopic : Topic) : list string :=
  take 15
    (map item_question
       (List.filter
          (fun h => bool_decide (levelId h = level_id level)
                    && String.eqb (topicName h) (name selectedTopic))
          savedHistory)).

(** The updater of the answer when a transcript arrives. *)
Definition appendTranscript (prev transcript : string) : string :=
  prev ++ (if String.eqb prev "" then "" else " ") ++ transcript.

(** The comparator of [getFilteredHistory]. *)
Definition historyCompare (sort : HistorySort) (a b : HistoryItem) : Q :=
  match sort with
  | NEWEST => timestamp b - timestamp a
  | OLDEST => timestamp a - timestamp b
  | HIGHEST => score (item_evaluation b) - score (item_evaluation a)
  | LOWEST => score (item_evaluation a) - score (item_evaluation b)
  end.

Definition getFilteredHistory (s : AppState) : list HistoryItem :=
  JS.Array_sort (historyCompare (historySort s))
    (List.filter
       (fun item =>
          if negb (String.eqb (historyFilterLevel s) "ALL")
             && negb (String.eqb (levelString (levelId item))
                                 (historyFilterLevel s))
          then false else true)
       (history s)).

(** [openHistoryItem]. *)
Definition openHistoryItem (item : HistoryItem) (s : AppState) : AppState :=
  let savedLevel :=
    match List.find (fun l => bool_decide (level_id l = levelId item)) LEVELS
    with
    | Some l => Some l
    | None => head LEVELS
    end in
  let savedTopic :=
    match List.find (fun t => String.eqb (name t) (topicName item))
                    Constants.TOPICS
    with
    | Some t => t
    | None => {| topic_id := "unknown"; name := topicName item;
                 icon := "üìù" |}
    end in
  setView EVALUATION
    (setFromHistory true
       (setEvaluation (Some (item_evaluation item))
          (setUserAnswer (item_userAnswer item)
             (setQuestion (item_question item)
                (setTopic (Some savedTopic)
                   (setLevel savedLevel s)))))).

Section Storage.

(** [JSON.stringify] and [JSON.parse] at the type of item lists, as the
    history service takes them. *)
Variable JSON_stringify : list HistoryItem -> string.
Variable JSON_parse : string -> option (list HistoryItem).

(** [JSON.parse] as it runs and the refusals of [localStorage.setItem], as
    the history service takes them where the code guards against what they
    do. *)
Variable JSON_parse_value :
  string -> option (HistoryService.JSONValue HistoryItem).
Variable quotaExceeded : string -> string -> gmap string string -> bool.

(** [loadHistory]. *)
Definition loadHistory (localStorage : gmap string string) (s : AppState)
  : AppState :=
  let data := HistoryService.getHistory JSON_parse localStorage in
  setHistorySort NEWEST
    (setHistoryFilterLevel "ALL" (setView HISTORY (setHistory data s))).

(** [handleClearHistory]; [confirmed] is the answer to the confirmation
    dialog. *)
Definition handleClearHistory (confirmed : bool)
    (localStorage : gmap string string) (s : AppState)
  : gmap string string * AppState :=
  if confirmed
  then (HistoryService.clearHistory localStorage, setHistory [] s)
  else (localStorage, s).

(** [handleSubmit].  [evaluateAnswer] stands for the remote evaluation, which
    answers or rejects ([None]); [uuid] and [now] are what
    [crypto.randomUUID()] and [Date.now()] return.  [saveHistoryItem] does
    not throw: the view changes whether the item was stored or not. *)
Definition handleSubmit
    (evaluateAnswer : CEFRLevel -> string -> string -> string ->
                      option EvaluationResult)
    (uuid : string) (now : Q)
    (localStorage : gmap string string) (s : AppState)
  : gmap string string * AppState :=
  match level s, topic s with
  | Some level, Some topic =>
      if String.eqb (userAnswer s) "" then (localStorage, s)
      else
        let s1 := setLoading true
                    (setLoadingText "Analyzing your response..." s) in
        match evaluateAnswer (level_id level) (name topic) (question s)
                             (userAnswer s) with
        | Some result =>
            let s2 := setEvaluation (Some result) s1 in
            let historyItem :=
              {| item_id := uuid;
                 timestamp := now;
                 levelId := level_id level;
                 topicName := name topic;
                 item_question := question s;
                 item_userAnswer := userAnswer s;
                 item_evaluation := result |} in
            (HistoryService.saveHistoryItem JSON_stringify JSON_parse_value
               quotaExceeded historyItem localStorage,
             setLoading false (setView EVALUATION s2))
        | None => (localStorage, setLoading false s1)
        end
  | _, _ => (localStorage, s)
  end.

(** [handleNextQuestion].  [generateQuestion] stands for the service call,
    which answers or rejects ([None]).  The [try] block also covers the
    history: [filter] on a stored value that is not an array throws, and the
    [catch] block sets the same question as for a rejected call. *)
Definition handleNextQuestion
    (generateQuestion : CEFRLevel -> string -> list string -> option string)
    (localStorage : gmap string string) (s : AppState) : AppState :=
  match level s, topic s with
  | Some level, Some topic =>
      let s1 :=
        setFromHistory false
          (setEvaluation None
             (setUserAnswer ""
                (setView QUESTION
                   (setLoading true
                      (setLoadingText "Generating new question..." s))))) in
      match HistoryService.getHistory_value JSON_parse_value localStorage
      with
      | HistoryService.JSONArray savedHistory =>
          let previous := previousQuestions savedHistory level topic in
          match generateQuestion (level_id level) (name topic) previous with
          | Some q => setLoading false (setQuestion q s1)
          | None =>
              setLoading false
                (setQuestion
                   "Could not generate a new question. Please try again." s1)
          end
      | HistoryService.NotIterable =>
          setLoading false
            (setQuestion
               "Could not generate a new question. Please try again." s1)
      end
  | _, _ => s
  end.

(** [handleTopicSelect]; its [try] block covers the history as that of
    [handleNextQuestion] does. *)
Definition handleTopicSelect
    (generateQuestion : CEFRLevel -> string -> list string -> option string)
    (selectedTopic : Topic)
    (localStorage : gmap string string) (s : AppState) : AppState :=
  match level s with
  | Some level =>
      let s1 :=
        setFromHistory false
          (setEvaluation None
             (setUserAnswer ""
                (setView QUESTION
                   (setLoading true
                      (setLoadingText "Crafting your question..."
                         (setTopic (Some selectedTopic) s)))))) in
      match HistoryService.getHistory_value JSON_parse_value localStorage
      with
      | HistoryService.JSONArray savedHistory =>
          let previous :=
            previousQuestions savedHistory level selectedTopic in
          match generateQuestion (level_id level) (name selectedTopic)
                                 previous
          with
          | Some q => setLoading false (setQuestion q s1)
          | None =>
              setLoading false
                (setQuestion
                   "Could not load question. Please go back and try again."
                   s1)
          end
      | HistoryService.NotIterable =>
          setLoading false
            (setQuestion
               "Could not load question. Please go back and try again." s1)
      end
  | None => s
  end.

End Storage.

End App.

(** A serializer of item lists, to run the application on: the text is an
    opening bracket followed by the binary digits of the list's code. *)
Module HistoryCodec.
Import Types.

#[global] Instance Q_eq_dec : EqDecision Q.
Proof. solve_decision. Defined.

#[global] Instance EvaluationResult_eq_dec : EqDecision EvaluationResult.
Proof. solve_decision. Defined.

#[global] Instance HistoryItem_eq_dec : EqDecision HistoryItem.
Proof. solve_decision. Defined.

#[global] Instance CEFRLevel_countable : Countable CEFRLevel :=
  inj_countable'
    (fun l => match l with
              | A1 => 0 | A2 => 1 | B1 => 2 | B2 => 3 | C1 => 4
              end%nat)
    (fun n => match n with
              | 0 => A1 | 1 => A2 | 2 => B1 | 3 => B2 | _ => C1
              end%nat)
    (fun l => match l with
              | A1 | A2 | B1 | B2 | C1 => eq_refl
              end).

#[global] Instance Q_countable : Countable Q :=
  inj_countable' (fun q => (Qnum q, Qden q)) (fun x => Qmake x.1 x.2)
    (fun q => match q with Qmake _ _ => eq_refl end).

#[global] Instance EvaluationResult_countable : Countable EvaluationResult :=
  inj_countable'
    (fun e => (grammar_correction e, vocabulary_suggestions e,
               sentence_structure_fix e, strengths e, weaknesses e, score e,
               corrected_answer e, professional_model_answer e))
    (fun '(a, b, c, d, e, f, g, h) =>
       {| grammar_correction := a; vocabulary_suggestions := b;
          sentence_structure_fix := c; strengths := d; weaknesses := e;
          score := f; corrected_answer := g;
          professional_model_answer := h |})
    (fun e => match e with Build_EvaluationResult _ _ _ _ _ _ _ _ => eq_refl
              end).

#[global] Instance HistoryItem_countable : Countable HistoryItem :=
  inj_countable'
    (fun i => (item_id i, timestamp i, levelId i, topicName i,
               item_question i, item_userAnswer i, item_evaluation i))
    (fun '(a, b, c, d, e, f, g) =>
       {| item_id := a; timestamp := b; levelId := c; topicName := d;
          item_question := e; item_userAnswer := f; item_evaluation := g |})
    (fun i => match i with Build_HistoryItem _ _ _ _ _ _ _ => eq_refl end).

Fixpoint digits (p : positive) : string :=
  match p with
  | xH => ""
  | xO q => String "0"%char (digits q)
  | xI q => String "1"%char (digits q)
  end.

Fixpoint number (s : string) : option positive :=
  match s with
  | EmptyString => Some xH
  | String c r =>
      if Ascii.eqb c "0"%char then option_map xO (number r)
      else if Ascii.eqb c "1"%char then option_map xI (number r)
      else None
  end.

Definition stringify (items : list HistoryItem) : string :=
  String "["%char (digits (encode items)).

Definition parse (json : string) : option (list HistoryItem) :=
  match json with
  | String c rest =>
      if Ascii.eqb c "["%char
      then match number rest with
           | Some p => decode p
           | None => None
           end
      else None
  | EmptyString => None
  end.

(** The same at run time, with the texts of values that are not
    iterable. *)
Definition parse_value (json : string)
  : option (HistoryService.JSONValue HistoryItem) :=
  if HistoryService.notIterableText json
  then Some HistoryService.NotIterable
  else option_map HistoryService.JSONArray (parse json).

(** A level, a topic, an evaluation and a state with a question answered, to
    run the application on. *)
Definition sampleEvaluation : EvaluationResult :=
  {| grammar_correction := "ok"; vocabulary_suggestions := "none";
     sentence_structure_fix := "I like tea."; strengths := ["clear"];
     weaknesses := []; score := 8; corrected_answer := "I like tea.";
     professional_model_answer := "I enjoy tea." |}.

Definition sampleLevel : LevelDetails :=
  {| level_id := A1; title := "Beginner";
     description := "Basic phrases and everyday expressions.";
     color := "bg-green-100 text-green-800 border-green-200" |}.

Definition sampleTopic : Topic :=
  {| topic_id := "travel"; name := "Travel"; icon := "" |}.

Definition sampleState : App.AppState :=
  App.setUserAnswer "I like tea"
    (App.setQuestion "What do you drink?"
       (App.setTopic (Some sampleTopic)
          (App.setLevel (Some sampleLevel) App.initialState))).

Definition sampleEvaluate (level : CEFRLevel) (topic question answer : string)
  : option EvaluationResult := Some sampleEvaluation.

End HistoryCodec.

(* ===================================================================== *)
(** * Vocabulary of the properties *)
(* ===================================================================== *)

Section Vocabulary.
Import JS LiveConversation.

(** Ranges of the numbers the base64 primitives handle. *)
Definition octet (x : N) : Prop := (x < 256)%N.
Definition sextet (x : N) : Prop := (x < 64)%N.

(** The buffer a payload decodes to: [decodeAudio], then
    [pcmToAudioBuffer]. *)
Definition chunkBuffer (base64Audio : string) : Result AudioBuffer :=
  match decodeAudio base64Audio with
  | None => Throw InvalidCharacterError
  | Some audioData => pcmToAudioBuffer audioData
  end.

(** The chunk an event delivers: the arrival time and the buffer of a
    message that carries playable audio and no interruption. *)
Definition audioChunk (e : PlaybackEvent) : option (Q * AudioBuffer) :=
  match e with
  | Message currentTime message =>
      if interrupted message then None
      else
        match inlineData message with
        | Some base64Audio =>
            if String.eqb base64Audio "" then None
            else
              match chunkBuffer base64Audio with
              | Done buffer => Some (currentTime, buffer)
              | Throw _ => None
              end
        | None => None
        end
  | Ended _ => None
  end.

(** An event of an uninterrupted run: an audio chunk or the natural end of
    a source. *)
Definition uninterrupted (e : PlaybackEvent) : bool :=
  match e with
  | Ended _ => true
  | Message _ _ => match audioChunk e with Some _ => true | None => false end
  end.

Definition completion (u : AudioBufferSourceNode) : Q :=
  (when u + duration (buffer u))%Q.

(** The units scheduled for a list of chunks, from a clock value. *)
Fixpoint chained (clock : Q) (chunks : list (Q * AudioBuffer))
    (units : list AudioBufferSourceNode) (final : Q) : Prop :=
  match chunks, units with
  | [], [] => final = clock
  | (currentTime, b) :: chunks', u :: units' =>
      when u = Math_max clock currentTime /\ buffer u = b
      /\ chained (completion u) chunks' units' final
  | _, _ => False
  end.

(** The audio part of a message, if any, can be played. *)
Definition audioPartOk (message : LiveServerMessage) : bool :=
  match inlineData message with
  | None => true
  | Some base64Audio =>
      String.eqb base64Audio ""
      || match chunkBuffer base64Audio with
         | Done _ => true
         | Throw _ => false
         end
  end.

(** The payloads sent on the session of a promise, oldest first. *)
Definition sentOn (promise : nat) (h : Host) : list RealtimeInput :=
  omap (fun x : nat * RealtimeInput =>
          if decide (x.1 = promise) then Some x.2 else None)
       (outbox h).

Definition frameInput (inputData : list Q) : RealtimeInput :=
  {| mimeType := "audio/pcm;rate=16000"; data := framePCM inputData |}.


(** What holds of the playback refs after any events: the started nodes are
    numbered in the order they were started, every node of the active set
    and every stopped node has been started, and no node of the active set
    has been stopped. *)
Definition playbackInv (p : Playback) : Prop :=
  (forall i u, started p !! i = Some u -> node u = i)
  /\ (forall s, s ∈ sourcesRef p -> (s < length (started p))%nat)
  /\ (forall s, s ∈ stopped p -> (s < length (started p))%nat)
  /\ sourcesRef p ## stopped p.

(** What holds of the session after any events: every payload in the outbox
    was sent on a fulfilled promise, the promises in the refs exist (the
    session ref's is fulfilled), and every identity handed out is below the
    next fresh one. *)
Definition sessionInv (s : Session) : Prop :=
  let h := host s in
  (forall x, x ∈ outbox h -> promises h !! x.1 = Some Fulfilled)
  /\ (forall q, is_Some (promises h !! q) -> (q < fresh h)%nat)
  /\ (forall q, sessionPromiseRef s = Some q -> is_Some (promises h !! q))
  /\ (forall q, sessionRef s = Some q -> promises h !! q = Some Fulfilled)
  /\ (forall x, x ∈ liveStreams h -> (x < fresh h)%nat)
  /\ (forall x, x ∈ openContexts h -> (x < fresh h)%nat).

(** The context is open and out of reach: its identity has been handed out
    and the ref to the output context does not hold it. *)
Definition contextLeaked (ctx : nat) (s : Session) : Prop :=
  ctx ∈ openContexts (host s)
  /\ (ctx < fresh (host s))%nat
  /\ audioContextRef s <> Some ctx.

(** The ref to the output context holds an identity that has been handed
    out. *)
Definition refBelowFresh (s : Session) : Prop :=
  forall ctx, audioContextRef s = Some ctx -> (ctx < fresh (host s))%nat.


End Vocabulary.

Section HistoryVocabulary.
Import HistoryService.

Context {HistoryItem : Type}.
Variable JSON_stringify : list HistoryItem -> string.
Variable JSON_parse : string -> option (JSONValue HistoryItem).
Variable quotaExceeded : string -> string -> gmap string string -> bool.



End HistoryVocabulary.

(** The item [handleSubmit] builds for an evaluated answer. *)
Definition submittedItem (uuid : string) (now : Q)
    (level : Types.LevelDetails) (topic : Types.Topic)
    (s : App.AppState) (result : Types.EvaluationResult)
  : Types.HistoryItem :=
  {| Types.item_id := uuid;
     Types.timestamp := now;
     Types.levelId := Types.level_id level;
     Types.topicName := Types.name topic;
     Types.item_question := App.question s;
     Types.item_userAnswer := App.userAnswer s;
     Types.item_evaluation := result |}.

Ltac euclid := zify; Z.to_euclidean_division_equations; lia.

Example btoa_hello : JS.btoa "hello" = "aGVsbG8=".
Proof. reflexivity. Qed.

Example atob_hello : JS.atob "aGVs bG8=" = Some "hello".
Proof. reflexivity. Qed.

Example atob_len1 : JS.atob "aGVsb" = None.
Proof. reflexivity. Qed.

Example encodePCM_3 :
  LiveConversation.encodePCM [x00; xff; x10] = "AP8Q".
Proof. reflexivity. Qed.

Example decodeAudio_3 :
  LiveConversation.decodeAudio "AP8Q" = Some [x00; xff; x10].
Proof. reflexivity. Qed.

Example atob_unpadded : JS.atob "aGVsbG8" = Some "hello".
Proof. reflexivity. Qed.

Example atob_misplaced_padding : JS.atob "ab=" = None.
Proof. reflexivity. Qed.

Example atob_not_base64 : JS.atob "a!bc" = None.
Proof. reflexivity. Qed.

(** One frame of silence, then two frames that arrive late: the second unit
    starts at the output time, not at the clock. *)
Example onMessage_two_chunks :
  option_map
    (fun p => (map LiveConversation.when (LiveConversation.started p),
               LiveConversation.nextStartTimeRef p))
    (match LiveConversation.playbackRun
             [ LiveConversation.Message 0
                 {| LiveConversation.inlineData := Some "AAA=";
                    LiveConversation.interrupted := false |};
               LiveConversation.Message (1 # 2)
                 {| LiveConversation.inlineData := Some "AAAAAA==";
                    LiveConversation.interrupted := false |} ]
             LiveConversation.initialPlayback with
     | JS.Done p => Some p
     | JS.Throw _ => None
     end)
  = Some ([0%Q; (1 # 2)%Q], ((1 # 2) + (2 # 24000))%Q).
Proof. reflexivity. Qed.

(** An odd number of octets cannot be viewed as 16-bit samples. *)
Example onMessage_odd_length :
  LiveConversation.onMessage 0
    {| LiveConversation.inlineData := Some "AA==";
       LiveConversation.interrupted := false |}
    LiveConversation.initialPlayback
  = JS.Throw JS.RangeError.
Proof. reflexivity. Qed.

Example floatToInt16_examples :
  map LiveConversation.floatToInt16
    [0%Q; (1 # 2)%Q; (-1)%Q; (32767 # 32768)%Q; 1%Q; (-1 # 65536)%Q]
  = [0; 16384; -32768; 32767; -32768; 0]%Z.
Proof. reflexivity. Qed.

Example saveHistoryItem_twice :
  HistoryService.getHistory_value HistoryService.Sample.parse
    (HistoryService.saveHistoryItem
       HistoryService.Sample.stringify HistoryService.Sample.parse
       (HistoryService.sizeQuota 1000) "b"%char
       (HistoryService.saveHistoryItem
          HistoryService.Sample.stringify HistoryService.Sample.parse
          (HistoryService.sizeQuota 1000) "a"%char ∅))
  = HistoryService.JSONArray ["b"; "a"]%char.
Proof. reflexivity. Qed.

(** A store whose value is not an array is left as it is; one whose text
    does not parse is overwritten. *)
Example saveHistoryItem_not_an_array :
  map (fun json =>
         HistoryService.saveHistoryItem
           HistoryService.Sample.stringify HistoryService.Sample.parse
           (HistoryService.sizeQuota 1000) "c"%char
           {[ HistoryService.STORAGE_KEY := json ]}
         !! HistoryService.STORAGE_KEY)
      ["null"; "{}"; "5"; "true"; "nul"]
  = [Some "null"; Some "{}"; Some "5"; Some "true"; Some "[c"].
Proof. reflexivity. Qed.

(* ===================================================================== *)
(** * Properties of the base64 primitives *)
(* ===================================================================== *)

Section Base64Facts.
Import JS.
Local Open Scope list_scope.

(** Induction three elements at a time, as the encoder consumes octets. *)
Lemma list_ind3 {A} (P : list A -> Prop) :
  P [] -> (forall a, P [a]) -> (forall a b, P [a; b]) ->
  (forall a b c r, P r -> P (a :: b :: c :: r)) ->
  forall l, P l.
Proof.
  intros H0 H1 H2 H3.
  fix IH 1.
  intros [|a [|b [|c r]]];
    [exact H0 | apply H1 | apply H2 | apply H3, IH].
Qed.

Lemma sextet_cases (P : N -> bool) :
  forallb P (map N.of_nat (seq 0 64)) = true ->
  forall n, (n < 64)%N -> P n = true.
Proof.
  intros H n Hn. rewrite forallb_forall in H. apply H.
  apply in_map_iff. exists (N.to_nat n). split; [lia|].
  apply in_seq. lia.
Qed.

Lemma sextet_of_char_of_sextet n :
  (n < 64)%N -> sextet_of_char (char_of_sextet n) = Some n.
Proof.
  intros Hn.
  pose proof (sextet_cases
    (fun n => match sextet_of_char (char_of_sextet n) with
              | Some m => N.eqb m n
              | None => false
              end) eq_refl n Hn) as H.
  cbv beta in H.
  destruct (sextet_of_char (char_of_sextet n)); [|discriminate].
  apply N.eqb_eq in H. congruence.
Qed.

Lemma char_of_sextet_not_whitespace n :
  (n < 64)%N -> is_ascii_whitespace (char_of_sextet n) = false.
Proof.
  intros Hn. apply negb_true_iff.
  exact (sextet_cases
    (fun n => negb (is_ascii_whitespace (char_of_sextet n))) eq_refl n Hn).
Qed.

Lemma char_of_sextet_not_pad n :
  (n < 64)%N -> is_pad (char_of_sextet n) = false.
Proof.
  intros Hn. apply negb_true_iff.
  exact (sextet_cases
    (fun n => negb (is_pad (char_of_sextet n))) eq_refl n Hn).
Qed.

Lemma octets_to_sextets_range l :
  Forall octet l -> Forall sextet (octets_to_sextets l).
Proof.
  unfold octet, sextet.
  induction l as [| a | a b | a b c r IH] using list_ind3; intros H; simpl.
  - constructor.
  - inversion_clear H. repeat constructor; euclid.
  - inversion_clear H as [|? ? Ha H']. inversion_clear H'.
    repeat constructor; euclid.
  - inversion_clear H as [|? ? Ha H']. inversion_clear H' as [|? ? Hb H''].
    inversion_clear H'' as [|? ? Hc Hr].
    repeat (constructor; [euclid|]). auto.
Qed.

(** The decoder's regrouping undoes the encoder's. *)
Lemma sextets_to_octets_to_sextets l :
  Forall octet l -> sextets_to_octets (octets_to_sextets l) = l.
Proof.
  unfold octet.
  induction l as [| a | a b | a b c r IH] using list_ind3; intros H; simpl.
  - reflexivity.
  - inversion_clear H. f_equal. euclid.
  - inversion_clear H as [|? ? Ha H']. inversion_clear H'.
    f_equal; [euclid|]. f_equal. euclid.
  - inversion_clear H as [|? ? Ha H']. inversion_clear H' as [|? ? Hb H''].
    inversion_clear H'' as [|? ? Hc Hr].
    rewrite IH by assumption.
    f_equal; [euclid|]. f_equal; [euclid|]. f_equal. euclid.
Qed.

Lemma sextets_of_chars ns :
  Forall sextet ns -> sextets (map char_of_sextet ns) = Some ns.
Proof.
  induction 1 as [|n ns Hn _ IH]; simpl; [reflexivity|].
  rewrite sextet_of_char_of_sextet, IH by exact Hn. reflexivity.
Qed.

Lemma filter_whitespace_chars ns :
  Forall sextet ns ->
  List.filter (fun c => negb (is_ascii_whitespace c)) (map char_of_sextet ns)
  = map char_of_sextet ns.
Proof.
  induction 1 as [|n ns Hn _ IH]; simpl; [reflexivity|].
  rewrite char_of_sextet_not_whitespace, IH by exact Hn. reflexivity.
Qed.

(** How many sextets the encoder produces, by the octet count modulo 3. *)
Lemma octets_to_sextets_length l :
  match (length l mod 3)%nat with
  | 0%nat => (length (octets_to_sextets l) mod 4 = 0)%nat
  | 1%nat => (length (octets_to_sextets l) mod 4 = 2)%nat
  | _ => (length (octets_to_sextets l) mod 4 = 3)%nat
  end.
Proof.
  induction l as [| a | a b | a b c r IH] using list_ind3;
    try reflexivity.
  cbn [length octets_to_sextets].
  replace (S (S (S (length r))) mod 3)%nat with (length r mod 3)%nat
    by euclid.
  replace (S (S (S (S (length (octets_to_sextets r))))) mod 4)%nat
    with (length (octets_to_sextets r) mod 4)%nat by euclid.
  exact IH.
Qed.

Lemma strip_padding_nil : strip_padding [] = [].
Proof. reflexivity. Qed.

Lemma strip_padding_data d c :
  is_pad c = false -> strip_padding (d ++ [c]) = d ++ [c].
Proof.
  intros Hc. unfold strip_padding.
  destruct (length (d ++ [c]) mod 4 =? 0)%nat; [|reflexivity].
  rewrite rev_app_distr. simpl.
  destruct (rev d); [reflexivity|]. rewrite Hc. reflexivity.
Qed.

Lemma strip_padding_one d c :
  is_pad c = false -> (length (d ++ [c; pad]) mod 4 = 0)%nat ->
  strip_padding (d ++ [c; pad]) = d ++ [c].
Proof.
  intros Hc Hlen. unfold strip_padding.
  rewrite Hlen, rev_app_distr. simpl. rewrite Hc.
  rewrite rev_involutive. reflexivity.
Qed.

Lemma strip_padding_two d :
  (length (d ++ [pad; pad]) mod 4 = 0)%nat ->
  strip_padding (d ++ [pad; pad]) = d.
Proof.
  intros Hlen. unfold strip_padding.
  rewrite Hlen, rev_app_distr. simpl. apply rev_involutive.
Qed.

(** The characters [btoa] emits: data characters, then the padding. *)
Lemma strip_padding_btoa octets :
  Forall octet octets ->
  strip_padding (map char_of_sextet (octets_to_sextets octets)
                   ++ padding (length octets))
  = map char_of_sextet (octets_to_sextets octets)
  /\ (length (octets_to_sextets octets) mod 4 <> 1)%nat.
Proof.
  intros Hoct.
  pose proof (octets_to_sextets_range _ Hoct) as Hrange.
  pose proof (octets_to_sextets_length octets) as Hlen.
  unfold padding.
  set (ss := octets_to_sextets octets) in *.
  assert (Hsnoc : ss = [] \/
            exists d n, ss = d ++ [n] /\ is_pad (char_of_sextet n) = false).
  { destruct ss as [|x ss'] using rev_ind; [now left|]. right.
    exists ss', x. split; [reflexivity|].
    apply Forall_app in Hrange. destruct Hrange as [_ Hx].
    inversion_clear Hx. now apply char_of_sextet_not_pad. }
  destruct (length octets mod 3)%nat as [|[|[|k]]] eqn:E;
    cbv beta iota in Hlen; [| | |exfalso; clear -E; euclid].
  - split; [|lia]. rewrite app_nil_r.
    destruct Hsnoc as [->|(d & n & -> & Hn)]; [reflexivity|].
    rewrite map_app. simpl. now apply strip_padding_data.
  - split; [|lia]. apply strip_padding_two.
    rewrite length_app, length_map. cbn [length]. euclid.
  - split; [|lia].
    destruct Hsnoc as [->|(d & n & -> & Hn)]; [discriminate|].
    rewrite map_app. simpl. rewrite <- app_assoc. simpl.
    apply strip_padding_one; [exact Hn|].
    rewrite length_app, length_map. cbn [length].
    rewrite length_app in Hlen. cbn [length] in Hlen. euclid.
Qed.

Lemma filter_whitespace_padding n :
  List.filter (fun c => negb (is_ascii_whitespace c)) (padding n)
  = padding n.
Proof. unfold padding. now destruct (n mod 3)%nat as [|[|[|k]]]. Qed.

Lemma N_of_ascii_octets cs : Forall octet (map N_of_ascii cs).
Proof.
  induction cs; constructor; [apply N_ascii_bounded | assumption].
Qed.

Lemma ascii_of_N_of_ascii cs : map ascii_of_N (map N_of_ascii cs) = cs.
Proof.
  induction cs as [|c cs IH]; simpl; [reflexivity|].
  now rewrite ascii_N_embedding, IH.
Qed.

(** [atob] undoes [btoa] on every binary string. *)
Lemma atob_btoa s : atob (btoa s) = Some s.
Proof.
  unfold atob, btoa.
  set (octets := map N_of_ascii (list_ascii_of_string s)).
  assert (Hoct : Forall octet octets) by apply N_of_ascii_octets.
  pose proof (octets_to_sextets_range _ Hoct) as Hrange.
  rewrite list_ascii_of_string_of_list_ascii, List.filter_app,
    filter_whitespace_chars, filter_whitespace_padding by exact Hrange.
  destruct (strip_padding_btoa octets Hoct) as [-> Hlen].
  rewrite length_map.
  destruct (length (octets_to_sextets octets) mod 4 =? 1)%nat eqn:E.
  { apply Nat.eqb_eq in E. contradiction. }
  rewrite sextets_of_chars, sextets_to_octets_to_sextets by assumption.
  unfold octets.
  now rewrite ascii_of_N_of_ascii, string_of_list_ascii_of_string.
Qed.

End Base64Facts.

(* ===================================================================== *)
(** * The audio helpers: [encodePCM], [decodeAudio], [arrayBufferToBase64] *)
(* ===================================================================== *)

Section AudioHelpers.
Import JS LiveConversation.

Lemma string_append_assoc (a b c : string) : (a ++ b) ++ c = a ++ (b ++ c).
Proof.
  induction a as [|x a IH]; [reflexivity|].
  change (String x ((a ++ b) ++ c) = String x (a ++ (b ++ c))).
  now rewrite IH.
Qed.

Lemma string_append_nil (a : string) : a ++ "" = a.
Proof.
  induction a as [|x a IH]; [reflexivity|].
  change (String x (a ++ "") = String x a). now rewrite IH.
Qed.

(** The accumulation loop builds the binary string of the octets. *)
Lemma binary_loop (bytes : list byte) (binary : string) :
  fold_left (fun binary b => binary ++ fromCharCode b) bytes binary
  = binary ++ string_of_list_ascii (map ascii_of_byte bytes).
Proof.
  revert binary. induction bytes as [|b bytes IH]; intros binary;
    cbn [fold_left map string_of_list_ascii].
  - now rewrite string_append_nil.
  - rewrite IH, string_append_assoc. reflexivity.
Qed.

Lemma encodePCM_btoa (bytes : Uint8Array) :
  encodePCM bytes = btoa (string_of_list_ascii (map ascii_of_byte bytes)).
Proof. unfold encodePCM. now rewrite binary_loop. Qed.

Lemma string_length_of_list cs :
  String.length (string_of_list_ascii cs) = length cs.
Proof. induction cs; simpl; congruence. Qed.

Lemma string_get_middle pre c suf :
  String.get (length pre) (string_of_list_ascii (pre ++ c :: suf)%list)
  = Some c.
Proof. induction pre; simpl; [reflexivity|assumption]. Qed.

Lemma toUint8_of_ascii c : toUint8 (N_of_ascii c) = byte_of_ascii c.
Proof.
  unfold toUint8. rewrite N.mod_small by apply N_ascii_bounded.
  now rewrite ascii_N_embedding.
Qed.

(** The fill loop of [decodeAudio], started after [pre] has been written. *)
Lemma fill_loop (pre suf : list ascii) :
  fold_left
    (fun (bytes : list byte) i =>
       match charCodeAt (string_of_list_ascii (pre ++ suf)%list) i with
       | Some n => <[i := toUint8 n]> bytes
       | None => bytes
       end)
    (seq (length pre) (length suf))
    (map byte_of_ascii pre ++ replicate (length suf) x00)%list
  = map byte_of_ascii (pre ++ suf)%list.
Proof.
  revert pre. induction suf as [|c suf IH]; intros pre.
  - simpl. now rewrite !app_nil_r.
  - cbn [length seq fold_left replicate]. unfold charCodeAt at 2.
    rewrite string_get_middle, toUint8_of_ascii.
    replace (length pre) with (length (map byte_of_ascii pre) + 0)%nat
      at 2 by (rewrite length_map; lia).
    rewrite insert_app_r. cbn [insert list_insert].
    specialize (IH (pre ++ [c])%list).
    rewrite <- app_assoc in IH. cbn [app] in IH.
    rewrite length_app, Nat.add_1_r in IH.
    rewrite map_app, <- app_assoc in IH. cbn [map app] in IH.
    exact IH.
Qed.

Lemma decodeAudio_atob base64 binaryString :
  atob base64 = Some binaryString ->
  decodeAudio base64
  = Some (map byte_of_ascii (list_ascii_of_string binaryString)).
Proof.
  intros H. unfold decodeAudio. rewrite H. f_equal.
  pose proof (fill_loop [] (list_ascii_of_string binaryString)) as L.
  cbn [app length map] in L.
  rewrite string_of_list_ascii_of_string in L.
  assert (E : String.length binaryString
              = length (list_ascii_of_string binaryString)).
  { rewrite <- string_length_of_list.
    now rewrite string_of_list_ascii_of_string. }
  rewrite E. exact L.
Qed.

Lemma byte_of_ascii_of_bytes (bytes : list byte) :
  map byte_of_ascii (map ascii_of_byte bytes) = bytes.
Proof.
  induction bytes as [|b bytes IH]; simpl; [reflexivity|].
  now rewrite byte_of_ascii_of_byte, IH.
Qed.

Lemma toUint8_to_N n : Byte.to_N (toUint8 n) = (n mod 256)%N.
Proof.
  unfold toUint8.
  pose proof (byte_of_ascii_via_N (ascii_of_N (n mod 256))) as H.
  symmetry in H. apply Byte.to_of_N in H. rewrite H.
  apply N_ascii_embedding. now apply N.mod_lt.
Qed.

(** The two octets of a 16-bit sample read back as the sample. *)
Lemma Int16_of_octets_of_Int16 z :
  (-32768 <= z <= 32767)%Z ->
  exists lo hi,
    Int16_octets z = [lo; hi] /\ Int16_of_octets lo hi = z.
Proof.
  intros Hz. unfold Int16_octets. cbv zeta. eexists _, _.
  split; [reflexivity|].
  unfold Int16_of_octets. rewrite !toUint8_to_N. cbv zeta.
  set (u := Z.to_N (z mod 65536)).
  assert (Hu : Z.of_N u = (z mod 65536)%Z).
  { unfold u. rewrite Z2N.id; [reflexivity|].
    apply Z.mod_pos_bound. lia. }
  assert (E : (Z.of_N ((u mod 256) mod 256)
               + 256 * Z.of_N ((u / 256) mod 256))%Z = (z mod 65536)%Z).
  { rewrite <- Hu. pose proof (Z.mod_pos_bound z 65536 eq_refl) as Hb.
    rewrite <- Hu in Hb. clear Hu Hz. euclid. }
  rewrite E.
  destruct (32768 <=? z mod 65536)%Z eqn:L;
    [apply Z.leb_le in L | apply Z.leb_gt in L];
    Z.to_euclidean_division_equations; lia.
Qed.

Lemma Int16Array_of_Uint8Array (samples : list Z) :
  Forall (fun z => -32768 <= z <= 32767)%Z samples ->
  Int16Array_of_buffer (Uint8Array_of_Int16Array samples) = Done samples.
Proof.
  induction 1 as [|z samples Hz _ IH]; [reflexivity|].
  destruct (Int16_of_octets_of_Int16 z Hz) as (lo & hi & Hoct & Hval).
  unfold Uint8Array_of_Int16Array in *. cbn [flat_map]. rewrite Hoct.
  cbn [app Int16Array_of_buffer]. rewrite IH. cbn [bind]. now rewrite Hval.
Qed.

End AudioHelpers.

(** C3: decoding the transport encoding of a byte array gives the byte array
    back, octet for octet and with the same length. *)
Theorem decodeAudio_encodePCM (bytes : LiveConversation.Uint8Array) :
  LiveConversation.decodeAudio (LiveConversation.encodePCM bytes) = Some bytes
  /\ option_map length
       (LiveConversation.decodeAudio (LiveConversation.encodePCM bytes))
     = Some (length bytes).
Proof.
  assert (H : LiveConversation.decodeAudio (LiveConversation.encodePCM bytes)
              = Some bytes).
  { rewrite encodePCM_btoa.
    rewrite (decodeAudio_atob _ _ (atob_btoa _)).
    now rewrite list_ascii_of_string_of_list_ascii, byte_of_ascii_of_bytes. }
  split; [exact H|]. now rewrite H.
Qed.

(** The same for a frame of 16-bit samples: its octets survive the transport
    encoding, and their 16-bit view is the frame. *)
Lemma frame_roundtrip (samples : list Z) :
  Forall (fun z => -32768 <= z <= 32767)%Z samples ->
  exists audioData,
    LiveConversation.decodeAudio
      (LiveConversation.encodePCM (JS.Uint8Array_of_Int16Array samples))
    = Some audioData
    /\ JS.Int16Array_of_buffer audioData = JS.Done samples.
Proof.
  intros H. exists (JS.Uint8Array_of_Int16Array samples). split.
  - rewrite encodePCM_btoa.
    rewrite (decodeAudio_atob _ _ (atob_btoa _)).
    now rewrite list_ascii_of_string_of_list_ascii, byte_of_ascii_of_bytes.
  - now apply Int16Array_of_Uint8Array.
Qed.

(** C10: the base64 helper of the service layer and [encodePCM] of the
    live-conversation component give the same string for the same octets. *)
Theorem arrayBufferToBase64_encodePCM (bytes : list byte) :
  GeminiService.arrayBufferToBase64 {| GeminiService.buffer_bytes := bytes |}
  = LiveConversation.encodePCM bytes.
Proof.
  unfold GeminiService.arrayBufferToBase64, LiveConversation.encodePCM,
    GeminiService.new_Uint8Array.
  cbn [GeminiService.buffer_bytes]. reflexivity.
Qed.

(* ===================================================================== *)
(** * The playback path *)
(* ===================================================================== *)

Section PlaybackFacts.
Import JS LiveConversation.

Lemma onMessage_chunk currentTime message b p :
  audioChunk (Message currentTime message) = Some (currentTime, b) ->
  onMessage currentTime message p = Done (playAudio currentTime b p).
Proof.
  unfold audioChunk, onMessage, chunkBuffer.
  destruct (interrupted message); [discriminate|].
  destruct (inlineData message) as [d|]; [|discriminate].
  destruct (String.eqb d ""); [discriminate|].
  destruct (decodeAudio d) as [a|]; [|discriminate].
  destruct (pcmToAudioBuffer a) as [b'|]; [|discriminate].
  intros [= ->]. reflexivity.
Qed.

Lemma audioChunk_time currentTime message ct b :
  audioChunk (Message currentTime message) = Some (ct, b) ->
  ct = currentTime.
Proof.
  unfold audioChunk.
  repeat match goal with
         | |- context [match ?x with _ => _ end] => destruct x
         end; try discriminate.
  now intros [= <- _].
Qed.

(** A run without interruption schedules one unit per chunk, each from the
    clock left by the one before. *)
Lemma playbackRun_chained events :
  forall p, Forall (fun e => uninterrupted e = true) events ->
  exists p' units,
    playbackRun events p = Done p'
    /\ started p' = (started p ++ units)%list
    /\ chained (nextStartTimeRef p) (omap audioChunk events) units
         (nextStartTimeRef p').
Proof.
  induction events as [|e events IH]; intros p Hev.
  - exists p, []. cbn. rewrite app_nil_r. auto.
  - inversion_clear Hev as [|? ? He Hevs].
    destruct e as [currentTime message|source].
    + unfold uninterrupted in He.
      destruct (audioChunk (Message currentTime message))
        as [[ct b]|] eqn:Hc; [|discriminate].
      pose proof (audioChunk_time _ _ _ _ Hc) as Ht. subst ct.
      destruct (IH (playAudio currentTime b p) Hevs)
        as (p' & units & Hrun & Hst & Hch).
      exists p', ({| node := length (started p); buffer := b;
                     when := Math_max (nextStartTimeRef p) currentTime |}
                    :: units).
      cbn [playbackRun playbackStep bind omap list_omap].
      rewrite (onMessage_chunk _ _ _ p Hc). cbn [bind].
      rewrite Hc. split; [exact Hrun|]. split.
      * rewrite Hst. cbn [playAudio started]. now rewrite <- app_assoc.
      * cbn [chained when buffer]. auto.
    + destruct (IH (onended source p) Hevs)
        as (p' & units & Hrun & Hst & Hch).
      exists p', units. cbn [playbackRun playbackStep bind omap list_omap].
      cbn [audioChunk]. auto.
Qed.

Lemma Math_max_ge a b : (a <= Math_max a b)%Q.
Proof. apply Q.le_max_l. Qed.

(** When the clock is at or ahead of the output time, the maximum is the
    clock itself. *)
Lemma Math_max_clock a b : (b <= a)%Q -> Math_max a b = a.
Proof.
  intros H. unfold Math_max, Qmax, GenericMinMax.gmax.
  destruct (a ?= b)%Q eqn:E; try reflexivity.
  apply Qlt_alt in E. exfalso. exact (Qlt_not_le _ _ E H).
Qed.

Lemma chained_length clock chunks units final :
  chained clock chunks units final -> length units = length chunks.
Proof.
  revert clock units.
  induction chunks as [|[ct b] chunks IH]; intros clock [|u units] H;
    cbn in H; try contradiction; [reflexivity|].
  destruct H as (_ & _ & H). cbn. f_equal. eauto.
Qed.

Lemma chained_first clock chunks units final u ct b :
  chained clock chunks units final ->
  units !! 0%nat = Some u -> chunks !! 0%nat = Some (ct, b) ->
  buffer u = b /\ when u = Math_max clock ct.
Proof.
  destruct chunks as [|[ct' b'] chunks], units as [|u' units];
    cbn; try contradiction; try discriminate.
  intros (Hw & Hb & _) [= ->] [= -> ->]. auto.
Qed.

Lemma chained_next clock chunks units final n u v ct b :
  chained clock chunks units final ->
  units !! n = Some u -> units !! S n = Some v ->
  chunks !! S n = Some (ct, b) ->
  buffer v = b /\ when v = Math_max (completion u) ct.
Proof.
  revert clock chunks units.
  induction n as [|n IH];
    intros clock [|[ct' b'] chunks] [|u' units] H Hu Hv Hc;
    cbn in H, Hu, Hv, Hc; try contradiction; try discriminate.
  - destruct H as (_ & _ & H). injection Hu as ->.
    eapply chained_first; eauto.
  - destruct H as (_ & _ & H). eapply IH; eauto.
Qed.

Lemma chained_buffer clock chunks units final n u ct b :
  chained clock chunks units final ->
  units !! n = Some u -> chunks !! n = Some (ct, b) ->
  buffer u = b.
Proof.
  revert clock chunks units.
  induction n as [|n IH];
    intros clock [|[ct' b'] chunks] [|u' units] H Hu Hc;
    cbn in H, Hu, Hc; try contradiction; try discriminate.
  - destruct H as (_ & Hb & _). now injection Hu as ->; injection Hc as _ ->.
  - destruct H as (_ & _ & H). eapply IH; eauto.
Qed.

Lemma chained_final clock chunks units final :
  chained clock chunks units final ->
  final = match last units with
          | Some u => completion u
          | None => clock
          end.
Proof.
  revert clock units.
  induction chunks as [|[ct b] chunks IH]; intros clock [|u units] H;
    cbn in H; try contradiction; [exact H|].
  destruct H as (_ & _ & H). rewrite (IH _ _ H).
  destruct units as [|v units]; [reflexivity|].
  change (last (u :: v :: units)) with (last (v :: units)).
  destruct (last (v :: units)) eqn:E; [reflexivity|].
  apply last_None in E. discriminate.
Qed.

Lemma pcmToAudioBuffer_duration audioData b :
  pcmToAudioBuffer audioData = Done b -> (0 < duration b)%Q.
Proof.
  unfold pcmToAudioBuffer, createBuffer.
  destruct (Int16Array_of_buffer audioData) as [dataInt16|]; cbn [bind];
    [|discriminate].
  destruct (length dataInt16 =? 0)%nat eqn:E; cbn [bind]; [discriminate|].
  intros [= <-]. apply Nat.eqb_neq in E.
  unfold duration, Qlt. cbn. rewrite length_map. lia.
Qed.

Lemma audioChunk_duration e ct b :
  audioChunk e = Some (ct, b) -> (0 < duration b)%Q.
Proof.
  destruct e as [currentTime message|source]; [|discriminate].
  unfold audioChunk, chunkBuffer.
  destruct (interrupted message); [discriminate|].
  destruct (inlineData message) as [d|]; [|discriminate].
  destruct (String.eqb d ""); [discriminate|].
  destruct (decodeAudio d) as [a|]; [|discriminate].
  destruct (pcmToAudioBuffer a) as [b'|] eqn:E; [|discriminate].
  intros [= _ <-]. eapply pcmToAudioBuffer_duration, E.
Qed.

Lemma omap_audioChunk_duration (events : list PlaybackEvent) (n : nat)
    (ct : Q) (b : AudioBuffer) :
  omap audioChunk events !! n = Some (ct, b) -> (0 < duration b)%Q.
Proof.
  intros H. apply list_elem_of_lookup_2, list_elem_of_omap in H.
  destruct H as (e & _ & He). eapply audioChunk_duration, He.
Qed.

End PlaybackFacts.

(** C1: in a run of audio chunks without interruption, every chunk is started
    at the maximum of the clock and the output time, the clock then moves to
    that start plus the chunk's duration; so a chunk never starts before the
    completion of the one before it, and it starts exactly at that completion
    when the output time has not passed it. *)
Theorem playback_chunks_never_overlap
    (events : list LiveConversation.PlaybackEvent)
    (p : LiveConversation.Playback) :
  Forall (fun e => uninterrupted e = true) events ->
  exists p' units,
    let chunks := omap audioChunk events in
    LiveConversation.playbackRun events p = JS.Done p'
    /\ LiveConversation.started p'
       = (LiveConversation.started p ++ units)%list
    /\ length units = length chunks
    /\ (forall n u ct b,
          units !! n = Some u -> chunks !! n = Some (ct, b) ->
          LiveConversation.buffer u = b
          /\ (0 < LiveConversation.duration b)%Q)
    /\ (forall u ct b,
          units !! 0%nat = Some u -> chunks !! 0%nat = Some (ct, b) ->
          LiveConversation.when u
          = JS.Math_max (LiveConversation.nextStartTimeRef p) ct)
    /\ (forall n u v ct b,
          units !! n = Some u -> units !! S n = Some v ->
          chunks !! S n = Some (ct, b) ->
          LiveConversation.when v = JS.Math_max (completion u) ct
          /\ (completion u <= LiveConversation.when v)%Q
          /\ ((ct <= completion u)%Q ->
              LiveConversation.when v = completion u))
    /\ LiveConversation.nextStartTimeRef p'
       = match last units with
         | Some u => completion u
         | None => LiveConversation.nextStartTimeRef p
         end.
Proof.
  intros Hev.
  destruct (playbackRun_chained events p Hev) as (p' & units & Hrun & Hst & Hch).
  exists p', units. cbv zeta.
  split; [exact Hrun|]. split; [exact Hst|].
  split; [eapply chained_length, Hch|].
  split.
  { intros n u ct b Hu Hc. split.
    - eapply chained_buffer; eauto.
    - eapply omap_audioChunk_duration, Hc. }
  split.
  { intros u ct b Hu Hc. eapply chained_first; eauto. }
  split.
  { intros n u v ct b Hu Hv Hc.
    destruct (chained_next _ _ _ _ _ _ _ _ _ Hch Hu Hv Hc) as [_ Hw].
    split; [exact Hw|]. split.
    - rewrite Hw. apply Math_max_ge.
    - intros Hle. rewrite Hw. now apply Math_max_clock. }
  eapply chained_final, Hch.
Qed.

Lemma playback_chunks_never_overlap_witness :
  let events :=
    [ LiveConversation.Message 0
        {| LiveConversation.inlineData := Some "AAA=";
           LiveConversation.interrupted := false |};
      LiveConversation.Ended 0;
      LiveConversation.Message (1 # 2)
        {| LiveConversation.inlineData := Some "AAAAAA==";
           LiveConversation.interrupted := false |} ] in
  Forall (fun e => uninterrupted e = true) events
  /\ exists p',
       LiveConversation.playbackRun events LiveConversation.initialPlayback
       = JS.Done p'.
Proof.
  cbv zeta.
  assert (H : Forall (fun e => uninterrupted e = true)
    [ LiveConversation.Message 0
        {| LiveConversation.inlineData := Some "AAA=";
           LiveConversation.interrupted := false |};
      LiveConversation.Ended 0;
      LiveConversation.Message (1 # 2)
        {| LiveConversation.inlineData := Some "AAAAAA==";
           LiveConversation.interrupted := false |} ]).
  { repeat constructor. }
  split; [exact H|].
  destruct (playback_chunks_never_overlap _ LiveConversation.initialPlayback H)
    as (p' & units & Hrun & _).
  exists p'. exact Hrun.
Defined.

(** Two chunks of 0.5 s and 0.3 s, back to back from a clock at zero: the
    second starts 0.5 s after the first. *)
Example playAudio_half_second :
  let b1 := {| LiveConversation.channelData := replicate (12 * 1000) 0%Q;
               LiveConversation.sampleRate := 24000 |} in
  let b2 := {| LiveConversation.channelData := replicate (72 * 100) 0%Q;
               LiveConversation.sampleRate := 24000 |} in
  let p2 := LiveConversation.playAudio 0 b2
              (LiveConversation.playAudio 0 b1
                 LiveConversation.initialPlayback) in
  map (fun u => Qred (LiveConversation.when u)) (LiveConversation.started p2)
  = [0%Q; (1 # 2)%Q]
  /\ Qred (LiveConversation.nextStartTimeRef p2) = (4 # 5)%Q.
Proof. vm_compute. split; reflexivity. Qed.

Section InterruptionFacts.
Import JS LiveConversation.

Lemma onMessage_interrupted currentTime message p :
  interrupted message = true -> audioPartOk message = true ->
  exists p0,
    onMessage currentTime message p = Done (onInterrupted p0)
    /\ sourcesRef p ⊆ sourcesRef p0
    /\ stopped p0 = stopped p
    /\ (forall u, u ∈ drop (length (started p)) (started p0) ->
                  node u ∈ sourcesRef p0).
Proof.
  unfold onMessage, audioPartOk, chunkBuffer. intros -> Hok.
  destruct (inlineData message) as [d|].
  - destruct (String.eqb d "").
    + exists p. cbn. rewrite drop_all.
      repeat split; [set_solver|]. intros u Hu. inversion Hu.
    + destruct (decodeAudio d) as [a|]; [|discriminate].
      destruct (pcmToAudioBuffer a) as [b|]; [|discriminate].
      exists (playAudio currentTime b p). cbn.
      rewrite drop_app_length.
      repeat split; [set_solver|]. intros u Hu.
      apply list_elem_of_singleton in Hu. subst u. cbn. set_solver.
  - exists p. cbn. rewrite drop_all.
    repeat split; [set_solver|]. intros u Hu. inversion Hu.
Qed.

(** Natural completions leave the clock and the schedule alone. *)
Lemma playbackRun_ended (ended : list nat) rest p :
  exists p',
    playbackRun (map Ended ended ++ rest)%list p = playbackRun rest p'
    /\ nextStartTimeRef p' = nextStartTimeRef p
    /\ started p' = started p.
Proof.
  revert p. induction ended as [|s ended IH]; intros p.
  - exists p. auto.
  - destruct (IH (onended s p)) as (p' & Hrun & Hc & Hs).
    exists p'. cbn. auto.
Qed.

End InterruptionFacts.

(** C2, as the code has it: the handler of a message with the interruption
    flag whose audio part, if it has one, decodes, in any state, stops every
    unit of the active set, empties the set and puts the clock back to zero;
    the chunk that arrives next is started from a clock of zero, whatever the
    clock was before the interruption.  The handler plays the audio part of
    the message first: it has to decode for the handler to reach the
    interruption. *)
Theorem interruption_resets_playback
    (p : LiveConversation.Playback) (currentTime : Q)
    (message : LiveConversation.LiveServerMessage) :
  LiveConversation.interrupted message = true ->
  audioPartOk message = true ->
  exists p1,
    LiveConversation.onMessage currentTime message p = JS.Done p1
    /\ LiveConversation.sourcesRef p1 = ∅
    /\ LiveConversation.nextStartTimeRef p1 = 0%Q
    /\ LiveConversation.sourcesRef p ⊆ LiveConversation.stopped p1
    /\ (forall u,
          u ∈ drop (length (LiveConversation.started p))
                   (LiveConversation.started p1) ->
          LiveConversation.node u ∈ LiveConversation.stopped p1)
    /\ forall (ended : list nat) ct2 message2 b2,
         audioChunk (LiveConversation.Message ct2 message2) = Some (ct2, b2) ->
         exists p3 u,
           LiveConversation.playbackRun
             (map LiveConversation.Ended ended
                ++ [LiveConversation.Message ct2 message2])%list p1
           = JS.Done p3
           /\ LiveConversation.started p3
              = (LiveConversation.started p1 ++ [u])%list
           /\ LiveConversation.buffer u = b2
           /\ LiveConversation.when u = JS.Math_max 0 ct2.
Proof.
  intros Hi Hok.
  destruct (onMessage_interrupted currentTime message p Hi Hok)
    as (p0 & Hrun & Hsub & _ & Hnew).
  exists (LiveConversation.onInterrupted p0).
  split; [exact Hrun|]. split; [reflexivity|]. split; [reflexivity|].
  split; [cbn; set_solver|].
  split; [intros u Hu; cbn; specialize (Hnew u Hu); set_solver|].
  intros ended ct2 message2 b2 Hc.
  destruct (playbackRun_ended ended [LiveConversation.Message ct2 message2]
              (LiveConversation.onInterrupted p0)) as (p2 & Hrun2 & Hclock & Hst).
  exists (LiveConversation.playAudio ct2 b2 p2),
    {| LiveConversation.node := length (LiveConversation.started p2);
       LiveConversation.buffer := b2;
       LiveConversation.when := JS.Math_max 0 ct2 |}.
  rewrite Hrun2. cbn [LiveConversation.playbackRun LiveConversation.playbackStep].
  rewrite (onMessage_chunk _ _ _ p2 Hc). cbn [JS.bind].
  split; [reflexivity|].
  cbn [LiveConversation.playAudio LiveConversation.started
       LiveConversation.buffer LiveConversation.when].
  rewrite Hclock, Hst. cbn [LiveConversation.onInterrupted
    LiveConversation.nextStartTimeRef LiveConversation.started]. auto.
Qed.

Lemma interruption_resets_playback_witness :
  let p := LiveConversation.playAudio 0
             {| LiveConversation.channelData := [0%Q; 0%Q];
                LiveConversation.sampleRate := 24000 |}
             LiveConversation.initialPlayback in
  let message := {| LiveConversation.inlineData := None;
                    LiveConversation.interrupted := true |} in
  LiveConversation.interrupted message = true
  /\ audioPartOk message = true
  /\ exists p1,
       LiveConversation.onMessage (1 # 4) message p = JS.Done p1
       /\ LiveConversation.nextStartTimeRef p1 = 0%Q.
Proof.
  cbv zeta. split; [reflexivity|]. split; [reflexivity|].
  destruct (interruption_resets_playback
              (LiveConversation.playAudio 0
                 {| LiveConversation.channelData := [0%Q; 0%Q];
                    LiveConversation.sampleRate := 24000 |}
                 LiveConversation.initialPlayback)
              (1 # 4)
              {| LiveConversation.inlineData := None;
                 LiveConversation.interrupted := true |}
              eq_refl eq_refl) as (p1 & Hrun & _ & Hclock & _).
  exists p1. split; [exact Hrun | exact Hclock].
Defined.

(** C2 as stated fails: a message with the interruption flag whose audio part
    is one octet makes the handler throw while it decodes, before it looks at
    the flag: the unit that was playing is neither stopped nor removed, and
    the clock stays where it was.  So not every interruption signal resets
    the playback. *)
Lemma interruption_lost_on_undecodable_audio :
  let u := {| LiveConversation.node := 0%nat;
              LiveConversation.buffer :=
                {| LiveConversation.channelData := [0%Q; 0%Q];
                   LiveConversation.sampleRate := 24000 |};
              LiveConversation.when := 0%Q |} in
  let p := {| LiveConversation.nextStartTimeRef := 1%Q;
              LiveConversation.sourcesRef := {[ 0%nat ]};
              LiveConversation.started := [u];
              LiveConversation.stopped := ∅ |} in
  let message := {| LiveConversation.inlineData := Some "AA==";
                    LiveConversation.interrupted := true |} in
  LiveConversation.interrupted message = true
  /\ LiveConversation.onMessage (1 # 4) message p = JS.Throw JS.RangeError
  /\ LiveConversation.sourcesRef
       (LiveConversation.playbackDeliver
          (LiveConversation.Message (1 # 4) message) p) = {[ 0%nat ]}
  /\ LiveConversation.stopped
       (LiveConversation.playbackDeliver
          (LiveConversation.Message (1 # 4) message) p) = ∅
  /\ LiveConversation.nextStartTimeRef
       (LiveConversation.playbackDeliver
          (LiveConversation.Message (1 # 4) message) p) = 1%Q
  /\ ~ (forall p0 currentTime message0,
          LiveConversation.interrupted message0 = true ->
          exists p1,
            LiveConversation.onMessage currentTime message0 p0 = JS.Done p1
            /\ LiveConversation.sourcesRef p1 = ∅
            /\ LiveConversation.nextStartTimeRef p1 = 0%Q).
Proof.
  cbv zeta. do 5 (split; [reflexivity|]).
  intros H.
  destruct (H LiveConversation.initialPlayback 0%Q
              {| LiveConversation.inlineData := Some "AA==";
                 LiveConversation.interrupted := true |} eq_refl)
    as (p1 & Hrun & _).
  discriminate Hrun.
Qed.

(* ===================================================================== *)
(** * The session lifecycle *)
(* ===================================================================== *)

(** C4: start sets the status to connecting, the open event sets it to
    connected, stop sets it to idle, an error event or a failure during
    startup sets it to error, the close event sets it to idle; in idle and in
    error the view offers the start button, and from either the run start,
    microphone granted, open passes through connecting and ends in
    connected. *)
Theorem lifecycle_transitions :
  (forall s, LiveConversation.status
               (LiveConversation.sessionStep LiveConversation.ClickStart s)
             = LiveConversation.connecting)
  /\ (forall s, LiveConversation.status
                  (LiveConversation.sessionStep LiveConversation.Open s)
                = LiveConversation.connected)
  /\ (forall s, LiveConversation.status
                  (LiveConversation.sessionStep LiveConversation.ClickStop s)
                = LiveConversation.idle)
  /\ (forall s, LiveConversation.status
                  (LiveConversation.sessionStep
                     LiveConversation.TransportError s)
                = LiveConversation.error)
  /\ (forall s, LiveConversation.status
                  (LiveConversation.sessionStep
                     (LiveConversation.UserMedia false) s)
                = LiveConversation.error)
  /\ (forall s, LiveConversation.status
                  (LiveConversation.sessionStep
                     LiveConversation.ContextFailure s)
                = LiveConversation.error)
  /\ (forall s promise reactions,
        LiveConversation.promises (LiveConversation.host s) !! promise
        = Some (LiveConversation.Pending reactions) ->
        LiveConversation.status
          (LiveConversation.sessionStep
             (LiveConversation.Settle promise false) s)
        = LiveConversation.error)
  /\ (forall s, LiveConversation.status
                  (LiveConversation.sessionStep LiveConversation.Close s)
                = LiveConversation.idle)
  /\ LiveConversation.button LiveConversation.idle
     = LiveConversation.StartConversation
  /\ LiveConversation.button LiveConversation.error
     = LiveConversation.StartConversation
  /\ (forall s,
        LiveConversation.status s = LiveConversation.idle
        \/ LiveConversation.status s = LiveConversation.error ->
        LiveConversation.status
          (LiveConversation.sessionRun [LiveConversation.ClickStart] s)
        = LiveConversation.connecting
        /\ LiveConversation.status
             (LiveConversation.sessionRun
                [LiveConversation.ClickStart;
                 LiveConversation.UserMedia true] s)
           = LiveConversation.connecting
        /\ LiveConversation.status
             (LiveConversation.sessionRun
                [LiveConversation.ClickStart;
                 LiveConversation.UserMedia true;
                 LiveConversation.Open] s)
           = LiveConversation.connected).
Proof.
  repeat split; try reflexivity.
  intros s promise reactions H. cbn. unfold LiveConversation.settle.
  rewrite H. reflexivity.
Qed.

Lemma lifecycle_transitions_witness :
  LiveConversation.status
    (LiveConversation.sessionStep LiveConversation.TransportError
       LiveConversation.initialSession)
  = LiveConversation.error
  /\ LiveConversation.status
       (LiveConversation.sessionRun
          [LiveConversation.ClickStart;
           LiveConversation.UserMedia true;
           LiveConversation.Open]
          (LiveConversation.sessionStep LiveConversation.TransportError
             LiveConversation.initialSession))
     = LiveConversation.connected.
Proof.
  split; [reflexivity|].
  apply (proj2 (proj2 (proj2 (proj2 (proj2 (proj2 (proj2 (proj2 (proj2
           (proj2 lifecycle_transitions)))))))))
           (LiveConversation.sessionStep LiveConversation.TransportError
              LiveConversation.initialSession)).
  right. reflexivity.
Defined.

(** C5 on the code: a transport error after the microphone was granted sets
    the status to error and releases nothing: the stream in the ref is still
    live and the context in the ref still open; [stopSession] from the same
    state releases both.  No error path touches the host's resources. *)
Theorem error_paths_keep_resources :
  let s := LiveConversation.sessionRun
             [LiveConversation.ClickStart;
              LiveConversation.UserMedia true;
              LiveConversation.TransportError]
             LiveConversation.initialSession in
  LiveConversation.status s = LiveConversation.error
  /\ LiveConversation.streamRef s = Some 2%nat
  /\ (2%nat ∈ LiveConversation.liveStreams (LiveConversation.host s))
  /\ LiveConversation.audioContextRef s = Some 1%nat
  /\ (1%nat ∈ LiveConversation.openContexts (LiveConversation.host s))
  /\ (2%nat ∉ LiveConversation.liveStreams
                (LiveConversation.host (LiveConversation.stopSession s)))
  /\ (1%nat ∉ LiveConversation.openContexts
                (LiveConversation.host (LiveConversation.stopSession s)))
  /\ (forall s0, LiveConversation.host (LiveConversation.onError s0)
                 = LiveConversation.host s0)
  /\ (forall s0, LiveConversation.host (LiveConversation.startSession_catch s0)
                 = LiveConversation.host s0).
Proof.
  cbv zeta. cbn.
  split; [reflexivity|]. split; [reflexivity|].
  split; [set_solver|]. split; [reflexivity|].
  split; [set_solver|].
  split; [set_unfold; tauto|]. split; [set_unfold; tauto|].
  split; reflexivity.
Qed.

(* ===================================================================== *)
(** * The capture path *)
(* ===================================================================== *)

Section SendFacts.
Import JS LiveConversation.

Lemma sentOn_other promise q (reactions : list RealtimeInput) :
  q <> promise ->
  omap (fun x : nat * RealtimeInput =>
          if decide (x.1 = promise) then Some x.2 else None)
       (map (pair q) reactions) = [].
Proof.
  intros Hne. induction reactions as [|r reactions IH]; [reflexivity|].
  cbn. destruct (decide (q = promise)); [contradiction|exact IH].
Qed.

Lemma promise_then_rejected promise q input h :
  promises h !! promise = Some Rejected ->
  promises (promise_then q input h) !! promise = Some Rejected
  /\ fresh (promise_then q input h) = fresh h
  /\ sentOn promise (promise_then q input h) = sentOn promise h.
Proof.
  intros Hrej. unfold promise_then.
  destruct (promises h !! q) as [[reactions| |]|] eqn:E; auto.
  - assert (q <> promise) by congruence.
    cbn. rewrite lookup_insert_ne by assumption. auto.
  - assert (q <> promise) by congruence.
    unfold sentOn. cbn. rewrite omap_app. cbn.
    destruct (decide (q = promise)); [contradiction|].
    rewrite app_nil_r. auto.
Qed.

(** A rejected promise stays rejected, and nothing more is sent on it. *)
Lemma sessionStep_rejected promise e s :
  promises (host s) !! promise = Some Rejected ->
  (promise < fresh (host s))%nat ->
  promises (host (sessionStep e s)) !! promise = Some Rejected
  /\ (promise < fresh (host (sessionStep e s)))%nat
  /\ sentOn promise (host (sessionStep e s)) = sentOn promise (host s).
Proof.
  intros Hrej Hlt. destruct e as [| |[|]|q ok| | | | |inputData|]; cbn.
  - auto with lia.
  - auto.
  - rewrite lookup_insert_ne by lia. auto with lia.
  - auto.
  - unfold settle.
    destruct (promises (host s) !! q) as [[reactions| |]|] eqn:E; auto.
    assert (q <> promise) by congruence.
    destruct ok; cbn; rewrite lookup_insert_ne by assumption;
      repeat split; auto.
    unfold sentOn. cbn. rewrite omap_app, sentOn_other by assumption.
    now rewrite app_nil_r.
  - auto.
  - auto.
  - auto.
  - unfold stopSession.
    destruct (streamRef s), (audioContextRef s); cbn; auto.
  - destruct (onaudioprocessSet s); [|auto]. unfold onaudioprocess. cbn.
    destruct (sessionPromiseRef s) as [q|]; cbn; [|auto].
    destruct (promise_then_rejected promise q (frameInput inputData)
                (host s) Hrej) as (H1 & H2 & H3).
    unfold frameInput in *. rewrite H2. auto.
  - auto with lia.
Qed.

Lemma sessionRun_rejected promise es :
  forall s,
    promises (host s) !! promise = Some Rejected ->
    (promise < fresh (host s))%nat ->
    promises (host (sessionRun es s)) !! promise = Some Rejected
    /\ sentOn promise (host (sessionRun es s)) = sentOn promise (host s).
Proof.
  induction es as [|e es IH]; intros s Hrej Hlt; [auto|].
  destruct (sessionStep_rejected promise e s Hrej Hlt) as (H1 & H2 & H3).
  destruct (IH (sessionStep e s) H1 H2) as [H4 H5].
  cbn. unfold sessionRun in *. split; [exact H4|]. now rewrite H5.
Qed.

End SendFacts.

(** C8, as the code has it: the capture handler never sends on a session
    that has not resolved.  With no promise in the ref, or before the open
    event installed the handler, the frame is dropped and nothing is
    reported; on a pending promise it is queued behind the frames before it
    and sent, in capture order, when the promise is fulfilled; on a fulfilled
    promise it is sent at once.  A frame queued on a promise that is then
    rejected, and a frame captured on a rejected promise, is never sent, but
    it is not dropped silently: each leaves one rejected promise without a
    handler, which the host reports.  The handler stays installed and changes
    nothing but the volume, the promise's queue, the outbox and those
    reports. *)
Theorem capture_send_is_best_effort
    (s : LiveConversation.Session) (inputData : list Q) :
  let s' := LiveConversation.onaudioprocess inputData s in
  let input := frameInput inputData in
  (LiveConversation.status s' = LiveConversation.status s
   /\ LiveConversation.sessionPromiseRef s'
      = LiveConversation.sessionPromiseRef s
   /\ LiveConversation.onaudioprocessSet s' = LiveConversation.onaudioprocessSet s)
  /\ (LiveConversation.onaudioprocessSet s = false ->
      LiveConversation.sessionStep
        (LiveConversation.AudioProcess inputData) s = s)
  /\ (LiveConversation.sessionPromiseRef s = None ->
      LiveConversation.host s' = LiveConversation.host s)
  /\ (forall promise reactions,
        LiveConversation.sessionPromiseRef s = Some promise ->
        LiveConversation.promises (LiveConversation.host s) !! promise
        = Some (LiveConversation.Pending reactions) ->
        LiveConversation.promises (LiveConversation.host s') !! promise
        = Some (LiveConversation.Pending (reactions ++ [input]))
        /\ LiveConversation.outbox (LiveConversation.host s')
           = LiveConversation.outbox (LiveConversation.host s)
        /\ LiveConversation.unhandledRejections (LiveConversation.host s')
           = LiveConversation.unhandledRejections (LiveConversation.host s)
        /\ LiveConversation.outbox
             (LiveConversation.host
                (LiveConversation.settle promise true s'))
           = (LiveConversation.outbox (LiveConversation.host s)
                ++ map (pair promise) (reactions ++ [input]))%list
        /\ LiveConversation.unhandledRejections
             (LiveConversation.host
                (LiveConversation.settle promise true s'))
           = LiveConversation.unhandledRejections (LiveConversation.host s)
        /\ LiveConversation.outbox
             (LiveConversation.host
                (LiveConversation.settle promise false s'))
           = LiveConversation.outbox (LiveConversation.host s)
        /\ LiveConversation.unhandledRejections
             (LiveConversation.host
                (LiveConversation.settle promise false s'))
           = (LiveConversation.unhandledRejections (LiveConversation.host s)
                ++ map (pair promise) (reactions ++ [input]))%list)
  /\ (forall promise,
        LiveConversation.sessionPromiseRef s = Some promise ->
        LiveConversation.promises (LiveConversation.host s) !! promise
        = Some LiveConversation.Fulfilled ->
        LiveConversation.outbox (LiveConversation.host s')
        = (LiveConversation.outbox (LiveConversation.host s)
             ++ [(promise, input)])%list
        /\ LiveConversation.unhandledRejections (LiveConversation.host s')
           = LiveConversation.unhandledRejections (LiveConversation.host s))
  /\ (forall promise,
        LiveConversation.sessionPromiseRef s = Some promise ->
        LiveConversation.promises (LiveConversation.host s) !! promise
        = Some LiveConversation.Rejected ->
        LiveConversation.outbox (LiveConversation.host s')
        = LiveConversation.outbox (LiveConversation.host s)
        /\ LiveConversation.promises (LiveConversation.host s')
           = LiveConversation.promises (LiveConversation.host s)
        /\ LiveConversation.unhandledRejections (LiveConversation.host s')
           = (LiveConversation.unhandledRejections (LiveConversation.host s)
                ++ [(promise, input)])%list
        /\ forall es,
             (promise < LiveConversation.fresh (LiveConversation.host s))%nat ->
             sentOn promise
               (LiveConversation.host (LiveConversation.sessionRun es s'))
             = sentOn promise (LiveConversation.host s)).
Proof.
  cbv zeta. unfold LiveConversation.onaudioprocess. simpl.
  split.
  { destruct (LiveConversation.sessionPromiseRef s) eqn:E; simpl; auto. }
  split.
  { intros ->. reflexivity. }
  split.
  { intros ->. reflexivity. }
  split; [|split].
  - intros promise reactions -> Hp. simpl.
    unfold LiveConversation.promise_then, LiveConversation.settle. simpl.
    rewrite Hp. simpl. rewrite !lookup_insert_eq. simpl.
    repeat split; reflexivity.
  - intros promise -> Hp. simpl.
    unfold LiveConversation.promise_then. rewrite Hp. simpl. auto.
  - intros promise -> Hp. simpl.
    pose proof (promise_then_rejected promise promise
                  (frameInput inputData) (LiveConversation.host s) Hp)
      as (H1 & H2 & H3).
    unfold frameInput in H1, H2, H3.
    unfold LiveConversation.promise_then at 1 2 3. rewrite Hp. simpl.
    split; [reflexivity|]. split; [reflexivity|]. split; [reflexivity|].
    intros es Hlt.
    match goal with
    | |- context [LiveConversation.sessionRun es ?s1] =>
        destruct (sessionRun_rejected promise es s1) as [_ H];
          [simpl; first [exact H1 | rewrite H2; exact Hlt] .. | rewrite H]
    end.
    simpl. exact H3.
Qed.

Lemma capture_send_is_best_effort_witness :
  let s := LiveConversation.sessionRun
             [LiveConversation.ClickStart;
              LiveConversation.UserMedia true;
              LiveConversation.Open]
             LiveConversation.initialSession in
  let inputData := [0%Q; (1 # 2)%Q] in
  LiveConversation.sessionPromiseRef s = Some 3%nat
  /\ LiveConversation.promises (LiveConversation.host s) !! 3%nat
     = Some (LiveConversation.Pending [])
  /\ LiveConversation.outbox
       (LiveConversation.host
          (LiveConversation.settle 3 true
             (LiveConversation.onaudioprocess inputData s)))
     = [(3%nat, frameInput inputData)].
Proof.
  cbv zeta.
  assert (Hp : LiveConversation.promises
                 (LiveConversation.host
                    (LiveConversation.sessionRun
                       [LiveConversation.ClickStart;
                        LiveConversation.UserMedia true;
                        LiveConversation.Open]
                       LiveConversation.initialSession)) !! 3%nat
               = Some (LiveConversation.Pending [])).
  { reflexivity. }
  split; [reflexivity|]. split; [exact Hp|].
  exact (proj1 (proj2 (proj2 (proj2
    (proj1 (proj2 (proj2 (proj2
      (capture_send_is_best_effort
         (LiveConversation.sessionRun
            [LiveConversation.ClickStart;
             LiveConversation.UserMedia true;
             LiveConversation.Open]
            LiveConversation.initialSession)
         [0%Q; (1 # 2)%Q]))))
      3%nat [] eq_refl Hp))))).
Defined.

(** C8 as stated fails: a frame captured while the session promise is
    pending is queued; when the connection then fails the frame is not sent,
    and neither is the frame captured after the failure, but neither is
    dropped silently: each leaves a rejected promise that nothing handles. *)
Lemma capture_drop_is_reported :
  let inputData := [0%Q; (1 # 2)%Q] in
  let s := LiveConversation.sessionRun
             [LiveConversation.ClickStart;
              LiveConversation.UserMedia true;
              LiveConversation.Open;
              LiveConversation.AudioProcess inputData;
              LiveConversation.Settle 3 false;
              LiveConversation.AudioProcess inputData]
             LiveConversation.initialSession in
  LiveConversation.promises (LiveConversation.host s) !! 3%nat
  = Some LiveConversation.Rejected
  /\ LiveConversation.outbox (LiveConversation.host s) = []
  /\ LiveConversation.unhandledRejections (LiveConversation.host s)
     = [(3%nat, frameInput inputData); (3%nat, frameInput inputData)].
Proof.
  cbv zeta. split; [reflexivity|]. split; reflexivity.
Qed.

Section SampleFacts.
Import JS LiveConversation.

Lemma truncate_scaled_range x :
  (-1 <= x)%Q -> (x < 1)%Q ->
  (-32768 <= truncate (x * 32768) <= 32767)%Z.
Proof.
  destruct x as [n d]. unfold Qle, Qlt, truncate. cbn.
  rewrite Pos.mul_1_r. intros Hlo Hhi.
  assert (Hd : (0 < Z.pos d)%Z) by lia.
  generalize dependent (Z.pos d). intros D Hlo Hhi Hd.
  Z.to_euclidean_division_equations. nia.
Qed.

Lemma ToInt16_in_range q :
  (-32768 <= truncate q <= 32767)%Z -> ToInt16 q = truncate q.
Proof.
  intros H. unfold ToInt16. cbv zeta.
  destruct (32768 <=? truncate q mod 65536)%Z eqn:E;
    [apply Z.leb_le in E | apply Z.leb_gt in E];
    Z.to_euclidean_division_equations; lia.
Qed.

Lemma ToInt16_wraps q :
  (-32768 <= ToInt16 q <= 32767)%Z
  /\ ((ToInt16 q - truncate q) mod 65536 = 0)%Z.
Proof.
  unfold ToInt16. cbv zeta.
  destruct (32768 <=? truncate q mod 65536)%Z eqn:E;
    [apply Z.leb_le in E | apply Z.leb_gt in E];
    split; Z.to_euclidean_division_equations; lia.
Qed.

End SampleFacts.

(** C7: the 16-bit conversion is the sample times 32768, truncated and stored
    as a signed 16-bit integer without clamping.  A sample in [-1, 1) gives
    its scaled integer; every sample gives a value congruent to the scaled
    integer modulo 2^16, so 1.0 gives -32768 and not 32767. *)
Theorem floatToInt16_wraps :
  (forall x, (-1 <= x)%Q -> (x < 1)%Q ->
     LiveConversation.floatToInt16 x = JS.truncate (x * 32768)
     /\ (-32768 <= LiveConversation.floatToInt16 x <= 32767)%Z)
  /\ (forall k, (-32768 <= k <= 32767)%Z ->
        LiveConversation.floatToInt16 (k # 32768) = k)
  /\ (forall x,
        (-32768 <= LiveConversation.floatToInt16 x <= 32767)%Z
        /\ ((LiveConversation.floatToInt16 x - JS.truncate (x * 32768))
              mod 65536 = 0)%Z)
  /\ LiveConversation.floatToInt16 1 = (-32768)%Z
  /\ LiveConversation.floatToInt16 (3 # 2) = (-16384)%Z
  /\ LiveConversation.floatToInt16 (- (3 # 2)) = 16384%Z.
Proof.
  split.
  { intros x Hlo Hhi.
    pose proof (truncate_scaled_range x Hlo Hhi) as Hr.
    unfold LiveConversation.floatToInt16.
    rewrite (ToInt16_in_range _ Hr). auto. }
  split.
  { intros k Hk. unfold LiveConversation.floatToInt16.
    assert (Ht : JS.truncate ((k # 32768) * 32768) = k).
    { unfold JS.truncate. cbn.
      change (Z.pos 32768) with 32768%Z.
      Z.to_euclidean_division_equations. lia. }
    rewrite ToInt16_in_range; rewrite Ht; [reflexivity | exact Hk]. }
  split.
  { intros x. apply ToInt16_wraps. }
  repeat split.
Qed.

Lemma floatToInt16_wraps_witness :
  (-1 <= 1 # 2)%Q /\ (1 # 2 < 1)%Q
  /\ (-32768 <= -5 <= 32767)%Z
  /\ LiveConversation.floatToInt16 (1 # 2) = 16384%Z
  /\ LiveConversation.floatToInt16 (-5 # 32768) = (-5)%Z.
Proof.
  assert (Hlo : (-1 <= 1 # 2)%Q) by (unfold Qle; cbn; lia).
  assert (Hhi : (1 # 2 < 1)%Q) by reflexivity.
  assert (Hk : (-32768 <= -5 <= 32767)%Z) by lia.
  split; [exact Hlo|]. split; [exact Hhi|]. split; [exact Hk|].
  split.
  - rewrite (proj1 (proj1 floatToInt16_wraps (1 # 2) Hlo Hhi)). reflexivity.
  - exact (proj1 (proj2 floatToInt16_wraps) (-5)%Z Hk).
Defined.

Section VolumeFacts.
Import JS LiveConversation.
Local Open Scope R_scope.







End VolumeFacts.



(* ===================================================================== *)
(** * The history service *)
(* ===================================================================== *)

Section HistoryFacts.
Import HistoryService.

Context {HistoryItem : Type}.
Variable JSON_stringify : list HistoryItem -> string.
Variable JSON_parse : string -> option (JSONValue HistoryItem).
Variable quotaExceeded : string -> string -> gmap string string -> bool.

(** What [saveHistoryItem] does, by the value in the store and the answer
    of the user agent to the write. *)
Lemma saveHistoryItem_cases (localStorage : gmap string string) item :
  saveHistoryItem JSON_stringify JSON_parse quotaExceeded item localStorage
  = match getHistory_value JSON_parse localStorage with
    | JSONArray prior =>
        if quotaExceeded STORAGE_KEY
             (JSON_stringify (take 50 (item :: prior))) localStorage
        then localStorage
        else <[ STORAGE_KEY := JSON_stringify (take 50 (item :: prior)) ]>
               localStorage
    | NotIterable => localStorage
    end.
Proof.
  unfold saveHistoryItem, spread, setItem.
  destruct (getHistory_value JSON_parse localStorage) as [prior|];
    [|reflexivity].
  cbn [JS.bind].
  now destruct (quotaExceeded STORAGE_KEY
                  (JSON_stringify (take 50 (item :: prior))) localStorage).
Qed.

(** The declared reading of the store is the value in it when that is an
    array, and the empty list otherwise. *)
Lemma getHistory_declared (localStorage : gmap string string) :
  getHistory (declared JSON_parse) localStorage
  = match getHistory_value JSON_parse localStorage with
    | JSONArray items => items
    | NotIterable => []
    end.
Proof.
  unfold getHistory, getHistory_value, declared.
  destruct (localStorage !! STORAGE_KEY) as [json|]; [|reflexivity].
  destruct (String.eqb json ""); [reflexivity|].
  now destruct (JSON_parse json) as [[items|]|].
Qed.

(** Parsing the text of a list gives the list back, and that text is never
    the empty string. *)
Hypothesis parse_stringify :
  forall items, JSON_parse (JSON_stringify items) = Some (JSONArray items).
Hypothesis stringify_nonempty :
  forall items, JSON_stringify items <> "".

Lemma getHistory_value_stored (localStorage : gmap string string) items :
  localStorage !! STORAGE_KEY = Some (JSON_stringify items) ->
  getHistory_value JSON_parse localStorage = JSONArray items.
Proof.
  intros H. unfold getHistory_value. rewrite H.
  destruct (String.eqb_spec (JSON_stringify items) "") as [E|_].
  - now apply stringify_nonempty in E.
  - now rewrite parse_stringify.
Qed.

(** An accepted save on a stored list. *)
Lemma getHistory_value_save (localStorage : gmap string string) item prior :
  getHistory_value JSON_parse localStorage = JSONArray prior ->
  quotaExceeded STORAGE_KEY
    (JSON_stringify (take 50 (item :: prior))) localStorage = false ->
  saveHistoryItem JSON_stringify JSON_parse quotaExceeded item localStorage
  = <[ STORAGE_KEY := JSON_stringify (take 50 (item :: prior)) ]>
      localStorage
  /\ getHistory_value JSON_parse
       (saveHistoryItem JSON_stringify JSON_parse quotaExceeded item
          localStorage)
     = JSONArray (item :: take 49 prior).
Proof.
  intros Hprior Hq. rewrite saveHistoryItem_cases, Hprior, Hq.
  split; [reflexivity|].
  apply (getHistory_value_stored _ (take 50 (item :: prior))).
  apply lookup_insert_eq.
Qed.

(** A save that finds no array, or whose write is refused, is lost. *)
Lemma saveHistoryItem_lost (localStorage : gmap string string) item :
  match getHistory_value JSON_parse localStorage with
  | JSONArray prior =>
      quotaExceeded STORAGE_KEY
        (JSON_stringify (take 50 (item :: prior))) localStorage = true
  | NotIterable => True
  end ->
  saveHistoryItem JSON_stringify JSON_parse quotaExceeded item localStorage
  = localStorage.
Proof.
  intros H. rewrite saveHistoryItem_cases.
  destruct (getHistory_value JSON_parse localStorage) as [prior|];
    [now rewrite H | reflexivity].
Qed.


End HistoryFacts.

Lemma Sample_parse_stringify items :
  HistoryService.Sample.parse (HistoryService.Sample.stringify items)
  = Some (HistoryService.JSONArray items).
Proof.
  unfold HistoryService.Sample.parse, HistoryService.Sample.stringify.
  cbn. now rewrite list_ascii_of_string_of_list_ascii.
Qed.

Lemma Sample_stringify_nonempty items :
  HistoryService.Sample.stringify items <> "".
Proof. discriminate. Qed.



(* ===================================================================== *)
(** * Further properties: decoding inbound audio *)
(* ===================================================================== *)

Section DecodeFacts.
Import JS LiveConversation.

Lemma list_ind2 {A} (P : list A -> Prop) :
  P [] -> (forall a, P [a]) -> (forall a b r, P r -> P (a :: b :: r)) ->
  forall l, P l.
Proof.
  intros H0 H1 H2. fix IH 1.
  intros [|a [|b r]]; [exact H0 | apply H1 | apply H2, IH].
Qed.

(** The 16-bit view: as many samples as pairs of octets, or a [RangeError]
    on an odd length. *)
Lemma Int16Array_of_buffer_length (bytes : list byte) :
  match Int16Array_of_buffer bytes with
  | Done samples => length bytes = (2 * length samples)%nat
  | Throw e => e = RangeError /\ Nat.odd (length bytes) = true
  end.
Proof.
  induction bytes as [| a | a b r IH] using list_ind2.
  - reflexivity.
  - split; reflexivity.
  - cbn [Int16Array_of_buffer].
    destruct (Int16Array_of_buffer r) as [samples|e]; cbn [bind length].
    + lia.
    + destruct IH as [-> IH]. split; [reflexivity|].
      now rewrite Nat.odd_succ, Nat.even_succ.
Qed.

Lemma Int16_of_octets_range lo hi :
  (-32768 <= Int16_of_octets lo hi <= 32767)%Z.
Proof.
  unfold Int16_of_octets. cbv zeta.
  pose proof (Byte.to_N_bounded lo). pose proof (Byte.to_N_bounded hi).
  destruct (32768 <=? _)%Z eqn:E;
    [apply Z.leb_le in E | apply Z.leb_gt in E]; lia.
Qed.

Lemma Int16Array_of_buffer_range (bytes : list byte) :
  match Int16Array_of_buffer bytes with
  | Done samples => Forall (fun z => -32768 <= z <= 32767)%Z samples
  | Throw _ => True
  end.
Proof.
  induction bytes as [| a | a b r IH] using list_ind2; cbn; auto.
  destruct (Int16Array_of_buffer r) as [samples|e]; cbn; auto.
  constructor; [apply Int16_of_octets_range | exact IH].
Qed.

End DecodeFacts.

(** X1: [pcmToAudioBuffer] succeeds exactly on a non-empty, even number of
    octets; the buffer then has one frame per pair of octets at 24 kHz, so it
    lasts that many 48000ths of a second.  An odd length is a [RangeError],
    an empty array a [NotSupportedError]. *)
Theorem pcmToAudioBuffer_frames (audioData : LiveConversation.Uint8Array) :
  match LiveConversation.pcmToAudioBuffer audioData with
  | JS.Done b =>
      audioData <> []
      /\ length audioData
         = (2 * length (LiveConversation.channelData b))%nat
      /\ LiveConversation.sampleRate b = 24000%positive
      /\ (LiveConversation.duration b
          == Z.of_nat (length audioData) # 48000)%Q
  | JS.Throw e =>
      (e = JS.RangeError /\ Nat.odd (length audioData) = true)
      \/ (e = JS.NotSupportedError /\ audioData = [])
  end.
Proof.
  unfold LiveConversation.pcmToAudioBuffer, LiveConversation.createBuffer.
  pose proof (Int16Array_of_buffer_length audioData) as H.
  destruct (JS.Int16Array_of_buffer audioData) as [samples|e]; cbn [JS.bind].
  - destruct (length samples =? 0)%nat eqn:E; cbn [JS.bind].
    + right. split; [reflexivity|]. apply Nat.eqb_eq in E.
      destruct audioData; [reflexivity|cbn in H; lia].
    + apply Nat.eqb_neq in E.
      unfold LiveConversation.duration.
      cbn [LiveConversation.channelData LiveConversation.sampleRate].
      rewrite length_map.
      split; [intros ->; cbn in H; lia|].
      split; [exact H|]. split; [reflexivity|].
      unfold Qeq. cbn [Qnum Qden]. rewrite H. lia.
  - left. exact H.
Qed.

(** X2: every sample of a decoded buffer is a 16-bit integer divided by
    32768, so it lies in [-1, 1). *)
Theorem pcmToAudioBuffer_samples (audioData : LiveConversation.Uint8Array) :
  match LiveConversation.pcmToAudioBuffer audioData with
  | JS.Done b =>
      Forall (fun x => exists k, (-32768 <= k <= 32767)%Z
                                 /\ x = (inject_Z k / 32768)%Q
                                 /\ (-1 <= x)%Q /\ (x < 1)%Q)
             (LiveConversation.channelData b)
  | JS.Throw _ => True
  end.
Proof.
  unfold LiveConversation.pcmToAudioBuffer, LiveConversation.createBuffer.
  pose proof (Int16Array_of_buffer_range audioData) as H.
  destruct (JS.Int16Array_of_buffer audioData) as [samples|e];
    cbn [JS.bind]; [|exact I].
  destruct (length samples =? 0)%nat; cbn [JS.bind]; [exact I|].
  cbn [LiveConversation.channelData].
  apply Forall_map. eapply Forall_impl; [exact H|].
  intros k Hk. exists k. split; [exact Hk|]. split; [reflexivity|].
  cbv beta in Hk. unfold Qle, Qlt, Qdiv, Qmult, Qinv, inject_Z. cbn. lia.
Qed.

(** X3: the message handler throws exactly when the message has a non-empty
    audio part that does not decode to a buffer, with the error of the
    decoding, whatever the state, the output time and the interruption flag:
    the interrupted branch is not reached then. *)
Theorem onMessage_throws_iff
    (currentTime : Q) (message : LiveConversation.LiveServerMessage)
    (p : LiveConversation.Playback) (e : JS.Error) :
  LiveConversation.onMessage currentTime message p = JS.Throw e
  <-> exists base64Audio,
        LiveConversation.inlineData message = Some base64Audio
        /\ base64Audio <> ""
        /\ chunkBuffer base64Audio = JS.Throw e.
Proof.
  unfold LiveConversation.onMessage, chunkBuffer. split.
  - intros H.
    destruct (LiveConversation.inlineData message) as [d|];
      [|discriminate H].
    destruct (String.eqb d "") eqn:E; [discriminate H|].
    apply String.eqb_neq in E.
    exists d. split; [reflexivity|]. split; [exact E|].
    destruct (LiveConversation.decodeAudio d) as [a|].
    + destruct (LiveConversation.pcmToAudioBuffer a) as [b|e'];
        cbn [JS.bind] in H; [discriminate H | congruence].
    + cbn [JS.bind] in H. congruence.
  - intros (d & -> & Hne & H).
    apply String.eqb_neq in Hne. rewrite Hne.
    destruct (LiveConversation.decodeAudio d) as [a|].
    + rewrite H. reflexivity.
    + cbn [JS.bind]. congruence.
Qed.

(* ===================================================================== *)
(** * Further properties: the playback refs *)
(* ===================================================================== *)

Section PlaybackInvariant.
Import JS LiveConversation.

Lemma playbackInv_initial : playbackInv initialPlayback.
Proof.
  unfold playbackInv. cbn.
  repeat split; first [set_solver | intros i u H; discriminate H].
Qed.

Lemma playAudio_inv currentTime b p :
  playbackInv p -> playbackInv (playAudio currentTime b p).
Proof.
  intros (Hnode & Hsrc & Hstop & Hdisj).
  unfold playbackInv, playAudio. cbn [started sourcesRef stopped].
  rewrite length_app. cbn [length].
  repeat split.
  - intros i u Hi. apply lookup_app_Some in Hi.
    destruct Hi as [Hi|[Hge Hi]]; [now apply Hnode|].
    destruct (i - length (started p))%nat as [|k] eqn:E; [|discriminate Hi].
    injection Hi as <-. cbn. lia.
  - intros s Hs. apply elem_of_union in Hs. destruct Hs as [Hs|Hs].
    + apply Hsrc in Hs. lia.
    + apply elem_of_singleton in Hs. lia.
  - intros s Hs. apply Hstop in Hs. lia.
  - apply disjoint_union_l. split; [exact Hdisj|].
    apply disjoint_singleton_l. intros Hs. apply Hstop in Hs. lia.
Qed.

Lemma onended_inv source p : playbackInv p -> playbackInv (onended source p).
Proof.
  intros (Hnode & Hsrc & Hstop & Hdisj).
  unfold playbackInv, onended. cbn [started sourcesRef stopped].
  repeat split; auto.
  - intros s Hs. apply Hsrc. apply elem_of_difference in Hs. tauto.
  - apply elem_of_disjoint. intros s Hs1 Hs2.
    apply elem_of_difference in Hs1. destruct Hs1 as [Hs1 _].
    exact (proj1 (elem_of_disjoint _ _) Hdisj s Hs1 Hs2).
Qed.

Lemma onInterrupted_inv p : playbackInv p -> playbackInv (onInterrupted p).
Proof.
  intros (Hnode & Hsrc & Hstop & Hdisj).
  unfold playbackInv, onInterrupted. cbn [started sourcesRef stopped].
  repeat split; auto.
  - intros s Hs. set_solver.
  - intros s Hs. apply elem_of_union in Hs. destruct Hs; auto.
  - set_solver.
Qed.

Lemma onMessage_cases currentTime message p p' :
  onMessage currentTime message p = Done p' ->
  exists p0,
    (p0 = p \/ exists b, p0 = playAudio currentTime b p)
    /\ p' = (if interrupted message then onInterrupted p0 else p0).
Proof.
  unfold onMessage.
  destruct (inlineData message) as [d|].
  - destruct (String.eqb d "").
    + cbn. intros [= <-]. exists p. auto.
    + destruct (decodeAudio d) as [a|]; [|discriminate].
      destruct (pcmToAudioBuffer a) as [b|]; [|discriminate].
      cbn. intros [= <-]. exists (playAudio currentTime b p). eauto.
  - cbn. intros [= <-]. exists p. auto.
Qed.

Lemma playbackDeliver_inv e p :
  playbackInv p -> playbackInv (playbackDeliver e p).
Proof.
  intros Hinv. unfold playbackDeliver.
  destruct e as [currentTime message|source]; cbn [playbackStep].
  - destruct (onMessage currentTime message p) as [p'|] eqn:E;
      [|exact Hinv].
    destruct (onMessage_cases _ _ _ _ E) as (p0 & Hp0 & ->).
    assert (playbackInv p0).
    { destruct Hp0 as [->|[b ->]]; [exact Hinv|now apply playAudio_inv]. }
    destruct (interrupted message); [now apply onInterrupted_inv|assumption].
  - now apply onended_inv.
Qed.

End PlaybackInvariant.

Lemma playbackDeliverAll_inv (events : list LiveConversation.PlaybackEvent) :
  playbackInv
    (LiveConversation.playbackDeliverAll events
       LiveConversation.initialPlayback).
Proof.
  unfold LiveConversation.playbackDeliverAll.
  generalize playbackInv_initial.
  generalize LiveConversation.initialPlayback as p.
  induction events as [|e events IH]; intros p Hinv; [exact Hinv|].
  cbn [fold_left]. apply IH. now apply playbackDeliver_inv.
Qed.

(** X4: after any inbound events, handled one by one from the initial refs,
    the started nodes are numbered in the order they were started, every node
    of the active set has been started, every stopped node has been started,
    and no node of the active set has been stopped. *)
Theorem playback_refs_invariant
    (events : list LiveConversation.PlaybackEvent) :
  let p := LiveConversation.playbackDeliverAll events
             LiveConversation.initialPlayback in
  (forall i u, LiveConversation.started p !! i = Some u ->
               LiveConversation.node u = i)
  /\ (forall s, s ∈ LiveConversation.sourcesRef p ->
                (s < length (LiveConversation.started p))%nat)
  /\ (forall s, s ∈ LiveConversation.stopped p ->
                (s < length (LiveConversation.started p))%nat)
  /\ LiveConversation.sourcesRef p ## LiveConversation.stopped p.
Proof. exact (playbackDeliverAll_inv events). Qed.

(** X5: a unit is never started in the past: the start of every unit a
    message schedules is at or after the output time the handler read, at or
    after the clock it found, and the clock it leaves is after that start. *)
Theorem scheduled_start_not_in_past
    (currentTime : Q) (message : LiveConversation.LiveServerMessage)
    (b : LiveConversation.AudioBuffer) (p : LiveConversation.Playback) :
  audioChunk (LiveConversation.Message currentTime message)
  = Some (currentTime, b) ->
  exists u,
    LiveConversation.onMessage currentTime message p
    = JS.Done (LiveConversation.playAudio currentTime b p)
    /\ LiveConversation.started (LiveConversation.playAudio currentTime b p)
       = (LiveConversation.started p ++ [u])%list
    /\ (currentTime <= LiveConversation.when u)%Q
    /\ (LiveConversation.nextStartTimeRef p <= LiveConversation.when u)%Q
    /\ (LiveConversation.when u
        < LiveConversation.nextStartTimeRef
            (LiveConversation.playAudio currentTime b p))%Q.
Proof.
  intros Hc.
  exists {| LiveConversation.node := length (LiveConversation.started p);
            LiveConversation.buffer := b;
            LiveConversation.when :=
              JS.Math_max (LiveConversation.nextStartTimeRef p) currentTime |}.
  split; [now apply onMessage_chunk|]. split; [reflexivity|].
  cbn [LiveConversation.when LiveConversation.playAudio
       LiveConversation.nextStartTimeRef].
  split; [apply Q.le_max_r|]. split; [apply Q.le_max_l|].
  pose proof (audioChunk_duration _ _ _ Hc) as Hd.
  rewrite <- (Qplus_0_r (JS.Math_max _ _)) at 1.
  apply Qplus_lt_r. exact Hd.
Qed.

Lemma scheduled_start_not_in_past_witness :
  let message := {| LiveConversation.inlineData := Some "AAA=";
                    LiveConversation.interrupted := false |} in
  exists b u,
    audioChunk (LiveConversation.Message (1 # 2) message) = Some (1 # 2, b)
    /\ LiveConversation.started
         (LiveConversation.playAudio (1 # 2) b
            LiveConversation.initialPlayback) = [u]
    /\ ((1 # 2) <= LiveConversation.when u)%Q.
Proof.
  cbv zeta.
  exists {| LiveConversation.channelData := [(inject_Z 0 / 32768)%Q];
            LiveConversation.sampleRate := 24000 |}.
  assert (Hc : audioChunk
                 (LiveConversation.Message (1 # 2)
                    {| LiveConversation.inlineData := Some "AAA=";
                       LiveConversation.interrupted := false |})
               = Some (1 # 2,
                       {| LiveConversation.channelData :=
                            [(inject_Z 0 / 32768)%Q];
                          LiveConversation.sampleRate := 24000 |}))
    by reflexivity.
  destruct (scheduled_start_not_in_past _ _ _
              LiveConversation.initialPlayback Hc)
    as (u & _ & Hst & Hle & _).
  exists u. split; [exact Hc|]. split; [exact Hst|exact Hle].
Defined.

(** X6: only an interruption moves the clock back: every other event leaves
    the clock where it was or moves it forward, and an event that lowers it
    is a message with the interruption flag, which leaves it at zero. *)
Theorem clock_lowered_only_by_interruption
    (e : LiveConversation.PlaybackEvent) (p : LiveConversation.Playback) :
  (LiveConversation.nextStartTimeRef p
   <= LiveConversation.nextStartTimeRef
        (LiveConversation.playbackDeliver e p))%Q
  \/ exists currentTime message,
       e = LiveConversation.Message currentTime message
       /\ LiveConversation.interrupted message = true
       /\ LiveConversation.nextStartTimeRef
            (LiveConversation.playbackDeliver e p) = 0%Q.
Proof.
  unfold LiveConversation.playbackDeliver.
  destruct e as [currentTime message|source];
    cbn [LiveConversation.playbackStep].
  - destruct (LiveConversation.onMessage currentTime message p) as [p'|] eqn:E;
      [|left; apply Qle_refl].
    destruct (onMessage_cases _ _ _ _ E) as (p0 & Hp0 & ->).
    destruct (LiveConversation.interrupted message) eqn:Hi.
    + right. exists currentTime, message. auto.
    + left. destruct Hp0 as [->|[b ->]]; [apply Qle_refl|].
      cbn [LiveConversation.playAudio LiveConversation.nextStartTimeRef].
      apply Qle_trans with
        (JS.Math_max (LiveConversation.nextStartTimeRef p) currentTime);
        [apply Q.le_max_l|].
      rewrite <- (Qplus_0_r (JS.Math_max _ _)) at 1.
      apply Qplus_le_r. unfold LiveConversation.duration, Qle. cbn. lia.
  - left. apply Qle_refl.
Qed.

(* ===================================================================== *)
(** * Further properties: from the microphone to a playable buffer *)
(* ===================================================================== *)

Section LoopbackFacts.
Import JS LiveConversation.

Lemma decodeAudio_of_encodePCM bytes :
  decodeAudio (encodePCM bytes) = Some bytes.
Proof.
  rewrite encodePCM_btoa, (decodeAudio_atob _ _ (atob_btoa _)).
  now rewrite list_ascii_of_string_of_list_ascii, byte_of_ascii_of_bytes.
Qed.

Lemma floatToInt16_range inputData :
  Forall (fun z => -32768 <= z <= 32767)%Z (map floatToInt16 inputData).
Proof.
  apply Forall_map, Forall_forall. intros x _.
  apply (ToInt16_wraps (x * 32768)).
Qed.

End LoopbackFacts.

(** X7: a captured frame, sent as it is by the capture handler and decoded as
    the message handler decodes inbound audio, gives a buffer at 24 kHz with
    one sample per captured sample: the 16-bit value of the sample over
    32768. *)
Theorem captured_frame_decodes (inputData : list Q) :
  inputData <> [] ->
  chunkBuffer (LiveConversation.framePCM inputData)
  = JS.Done
      {| LiveConversation.channelData :=
           map (fun x => inject_Z (LiveConversation.floatToInt16 x) / 32768)%Q
               inputData;
         LiveConversation.sampleRate := 24000 |}.
Proof.
  intros Hne. unfold chunkBuffer, LiveConversation.framePCM.
  rewrite decodeAudio_of_encodePCM.
  unfold LiveConversation.pcmToAudioBuffer.
  rewrite (Int16Array_of_Uint8Array _ (floatToInt16_range inputData)).
  cbn [JS.bind]. unfold LiveConversation.createBuffer.
  rewrite length_map.
  destruct inputData as [|x inputData]; [contradiction|].
  cbn [length Nat.eqb JS.bind LiveConversation.sampleRate].
  now rewrite map_map.
Qed.

Lemma captured_frame_decodes_witness :
  [(1 # 2)%Q; (-1)%Q] <> []
  /\ chunkBuffer (LiveConversation.framePCM [(1 # 2)%Q; (-1)%Q])
     = JS.Done
         {| LiveConversation.channelData :=
              [(inject_Z 16384 / 32768)%Q; (inject_Z (-32768) / 32768)%Q];
            LiveConversation.sampleRate := 24000 |}.
Proof.
  assert (Hne : [(1 # 2)%Q; (-1)%Q] <> []) by discriminate.
  split; [exact Hne|].
  exact (captured_frame_decodes _ Hne).
Defined.

(** X8: [encodePCM] is injective: two byte arrays with the same encoding are
    the same array. *)
Theorem encodePCM_injective (a b : LiveConversation.Uint8Array) :
  LiveConversation.encodePCM a = LiveConversation.encodePCM b -> a = b.
Proof.
  intros H.
  assert (E : Some a = Some b).
  { rewrite <- (decodeAudio_of_encodePCM a), <- (decodeAudio_of_encodePCM b).
    now rewrite H. }
  now injection E.
Qed.

Lemma encodePCM_injective_witness :
  LiveConversation.encodePCM [x01; x02] = "AQI="
  /\ forall b, LiveConversation.encodePCM b = "AQI=" -> b = [x01; x02].
Proof.
  assert (H : LiveConversation.encodePCM [x01; x02] = "AQI=") by reflexivity.
  split; [exact H|].
  intros b Hb. symmetry. apply encodePCM_injective. now rewrite H, Hb.
Defined.

(* ===================================================================== *)
(** * Further properties: the session *)
(* ===================================================================== *)

Section SessionInvariant.
Import JS LiveConversation.

Lemma sessionInv_initial : sessionInv initialSession.
Proof.
  unfold sessionInv. cbn.
  repeat split; intros x H; try discriminate H;
    first [ now apply elem_of_nil in H
          | now apply lookup_empty_is_Some in H
          | now apply elem_of_empty in H ].
Qed.

(** Replacing a promise that is not fulfilled keeps what the outbox and the
    session ref rely on. *)
Lemma sessionInv_insert (m : gmap nat Promise) q v (x : nat) :
  m !! q <> Some Fulfilled ->
  m !! x = Some Fulfilled -> <[q := v]> m !! x = Some Fulfilled.
Proof.
  intros Hq Hx. rewrite lookup_insert_ne; [exact Hx|]. congruence.
Qed.

Lemma is_Some_insert (m : gmap nat Promise) q v (x : nat) :
  is_Some (m !! x) -> is_Some (<[q := v]> m !! x).
Proof.
  intros H. destruct (decide (q = x)) as [->|Hne].
  - rewrite lookup_insert_eq. eauto.
  - now rewrite lookup_insert_ne.
Qed.

Lemma promise_then_inv q input s :
  sessionInv s -> sessionInv (setHost (promise_then q input (host s)) s).
Proof.
  intros (Hout & Hfresh & Href & Hsess & Hlive & Hopen).
  unfold promise_then.
  destruct (promises (host s) !! q) as [[reactions| |]|] eqn:E;
    unfold sessionInv; cbn; repeat split; auto.
  - intros x Hx. apply sessionInv_insert; [congruence|auto].
  - intros r [v Hr]. destruct (decide (q = r)) as [<-|Hne].
    + apply Hfresh. rewrite E. eauto.
    + rewrite lookup_insert_ne in Hr by assumption. apply Hfresh. eauto.
  - intros r Hr. apply is_Some_insert. auto.
  - intros r Hr. apply sessionInv_insert; [congruence|auto].
  - intros x Hx. apply elem_of_app in Hx. destruct Hx as [Hx|Hx]; [auto|].
    apply list_elem_of_singleton in Hx. subst x. exact E.
Qed.

Lemma settle_inv q ok s : sessionInv s -> sessionInv (settle q ok s).
Proof.
  intros (Hout & Hfresh & Href & Hsess & Hlive & Hopen).
  unfold settle.
  destruct (promises (host s) !! q) as [[reactions| |]|] eqn:E;
    try (unfold sessionInv; repeat split; assumption).
  destruct ok; unfold sessionInv; cbn; repeat split; auto.
  - intros x Hx. apply elem_of_app in Hx. destruct Hx as [Hx|Hx].
    + apply sessionInv_insert; [congruence|auto].
    + apply list_elem_of_fmap in Hx. destruct Hx as (r & -> & _).
      cbn. apply lookup_insert_eq.
  - intros r [v Hr]. destruct (decide (q = r)) as [<-|Hne].
    + apply Hfresh. rewrite E. eauto.
    + rewrite lookup_insert_ne in Hr by assumption. apply Hfresh. eauto.
  - intros r Hr. apply is_Some_insert. auto.
  - intros r [= <-]. apply lookup_insert_eq.
  - intros x Hx. apply sessionInv_insert; [congruence|auto].
  - intros r [v Hr]. destruct (decide (q = r)) as [<-|Hne].
    + apply Hfresh. rewrite E. eauto.
    + rewrite lookup_insert_ne in Hr by assumption. apply Hfresh. eauto.
  - intros r Hr. apply is_Some_insert. auto.
  - intros r Hr. apply sessionInv_insert; [congruence|auto].
Qed.

Lemma sessionStep_inv e s : sessionInv s -> sessionInv (sessionStep e s).
Proof.
  intros Hinv.
  destruct e as [| |[|]|q ok| | | | |inputData|]; cbn [sessionStep].
  - (* start: two fresh contexts *)
    destruct Hinv as (Hout & Hfresh & Href & Hsess & Hlive & Hopen).
    unfold sessionInv. cbn. repeat split; auto.
    + intros r Hr. apply Hfresh in Hr. lia.
    + intros x Hx. apply Hlive in Hx. lia.
    + intros x Hx. apply elem_of_union in Hx. destruct Hx as [Hx|Hx].
      * apply Hopen in Hx. lia.
      * apply elem_of_union in Hx.
        destruct Hx as [Hx|Hx]; apply elem_of_singleton in Hx; lia.
  - exact Hinv.
  - (* microphone granted: a fresh stream and a fresh pending promise *)
    destruct Hinv as (Hout & Hfresh & Href & Hsess & Hlive & Hopen).
    assert (Hnew : promises (host s) !! S (fresh (host s)) = None).
    { destruct (promises (host s) !! S (fresh (host s))) eqn:E;
        [|reflexivity].
      assert (S (fresh (host s)) < fresh (host s))%nat
        by (apply Hfresh; rewrite E; eauto). lia. }
    unfold sessionInv. cbn. repeat split.
    + intros x Hx. apply sessionInv_insert; [congruence|auto].
    + intros r [v Hr]. destruct (decide (S (fresh (host s)) = r)) as [<-|Hne].
      * lia.
      * rewrite lookup_insert_ne in Hr by assumption.
        assert (r < fresh (host s))%nat by (apply Hfresh; eauto). lia.
    + intros r [= <-]. rewrite lookup_insert_eq. eauto.
    + intros r Hr. apply sessionInv_insert; [congruence|auto].
    + intros x Hx. apply elem_of_union in Hx. destruct Hx as [Hx|Hx].
      * apply Hlive in Hx. lia.
      * apply elem_of_singleton in Hx. lia.
    + intros x Hx. apply Hopen in Hx. lia.
  - exact Hinv.
  - now apply settle_inv.
  - exact Hinv.
  - exact Hinv.
  - exact Hinv.
  - (* stop: resources are only released *)
    destruct Hinv as (Hout & Hfresh & Href & Hsess & Hlive & Hopen).
    unfold sessionInv, stopSession.
    destruct (streamRef s), (audioContextRef s); cbn; repeat split; auto;
      intros x Hx; apply elem_of_difference in Hx; destruct Hx as [Hx _];
      auto.
  - destruct (onaudioprocessSet s); [|exact Hinv].
    unfold onaudioprocess. cbn.
    destruct (sessionPromiseRef s) as [q|] eqn:E; [|exact Hinv].
    assert (Hinv' : sessionInv (setVolume (frameVolume inputData) s))
      by exact Hinv.
    exact (promise_then_inv q
      {| mimeType := "audio/pcm;rate=16000"; data := framePCM inputData |}
      _ Hinv').
  - (* the output context fails: the input context is fresh and open *)
    destruct Hinv as (Hout & Hfresh & Href & Hsess & Hlive & Hopen).
    unfold sessionInv. cbn. repeat split; auto.
    + intros r Hr. apply Hfresh in Hr. lia.
    + intros x Hx. apply Hlive in Hx. lia.
    + intros x Hx. apply elem_of_union in Hx. destruct Hx as [Hx|Hx].
      * apply Hopen in Hx. lia.
      * apply elem_of_singleton in Hx. lia.
Qed.

End SessionInvariant.

Lemma sessionRun_inv (events : list LiveConversation.SessionEvent) :
  sessionInv (LiveConversation.sessionRun events LiveConversation.initialSession).
Proof.
  unfold LiveConversation.sessionRun.
  generalize sessionInv_initial.
  generalize LiveConversation.initialSession as s.
  induction events as [|e events IH]; intros s Hinv; [exact Hinv|].
  cbn [fold_left]. apply IH. now apply sessionStep_inv.
Qed.

(** X9: after any events from the initial session, every payload in the
    outbox was sent on a promise that is fulfilled (nothing is ever sent on a
    pending or rejected one), the promise in the ref exists, the session in
    the ref is a fulfilled promise, and every stream, context and promise has
    an identity below the next fresh one. *)
Theorem outbox_only_on_fulfilled
    (events : list LiveConversation.SessionEvent) :
  let s := LiveConversation.sessionRun events
             LiveConversation.initialSession in
  let h := LiveConversation.host s in
  (forall q input,
     (q, input) ∈ LiveConversation.outbox h ->
     LiveConversation.promises h !! q = Some LiveConversation.Fulfilled)
  /\ (forall q, LiveConversation.sessionPromiseRef s = Some q ->
                is_Some (LiveConversation.promises h !! q))
  /\ (forall q, LiveConversation.sessionRef s = Some q ->
                LiveConversation.promises h !! q
                = Some LiveConversation.Fulfilled)
  /\ (forall x, x ∈ LiveConversation.liveStreams h
                \/ x ∈ LiveConversation.openContexts h
                \/ is_Some (LiveConversation.promises h !! x) ->
                (x < LiveConversation.fresh h)%nat).
Proof.
  cbv zeta.
  destruct (sessionRun_inv events)
    as (Hout & Hfresh & Href & Hsess & Hlive & Hopen).
  split; [intros q input H; exact (Hout (q, input) H)|].
  split; [exact Href|]. split; [exact Hsess|].
  intros x [H|[H|H]]; auto.
Qed.

Section FlushFacts.
Import JS LiveConversation.

Lemma sessionRun_app es1 es2 s :
  sessionRun (es1 ++ es2)%list s = sessionRun es2 (sessionRun es1 s).
Proof. unfold sessionRun. apply fold_left_app. Qed.

(** Frames captured on a pending promise pile up behind the reactions that
    were there. *)
Lemma frames_queue frames : forall s q reactions,
  onaudioprocessSet s = true ->
  sessionPromiseRef s = Some q ->
  promises (host s) !! q = Some (Pending reactions) ->
  let s' := sessionRun (map AudioProcess frames) s in
  onaudioprocessSet s' = true
  /\ sessionPromiseRef s' = Some q
  /\ promises (host s') !! q
     = Some (Pending (reactions ++ map frameInput frames))
  /\ outbox (host s') = outbox (host s).
Proof.
  induction frames as [|f frames IH]; intros s q reactions Hset Href Hp.
  - cbn. rewrite app_nil_r. auto.
  - cbv zeta. cbn [map]. change (AudioProcess f :: map AudioProcess frames)
      with ([AudioProcess f] ++ map AudioProcess frames)%list.
    rewrite sessionRun_app.
    set (s1 := sessionRun [AudioProcess f] s).
    assert (H1 : onaudioprocessSet s1 = true
                 /\ sessionPromiseRef s1 = Some q
                 /\ promises (host s1) !! q
                    = Some (Pending (reactions ++ [frameInput f]))
                 /\ outbox (host s1) = outbox (host s)).
    { unfold s1, sessionRun. cbn [fold_left sessionStep]. rewrite Hset.
      unfold onaudioprocess. simpl. rewrite Href. simpl.
      unfold promise_then. rewrite Hp. simpl.
      rewrite lookup_insert_eq. auto. }
    destruct H1 as (Hset1 & Href1 & Hp1 & Hout1).
    destruct (IH s1 q _ Hset1 Href1 Hp1) as (H2 & H3 & H4 & H5).
    rewrite <- app_assoc in H4. cbn [app] in H4.
    repeat split; [exact H2|exact H3|exact H4|congruence].
Qed.

End FlushFacts.

(** X10: the frames captured while the session promise is pending are all
    sent when it is fulfilled, once each, in capture order and behind what
    was queued before them. *)
Theorem queued_frames_sent_in_order
    (s : LiveConversation.Session) (frames : list (list Q))
    (q : nat) (reactions : list LiveConversation.RealtimeInput) :
  LiveConversation.onaudioprocessSet s = true ->
  LiveConversation.sessionPromiseRef s = Some q ->
  LiveConversation.promises (LiveConversation.host s) !! q
  = Some (LiveConversation.Pending reactions) ->
  LiveConversation.outbox
    (LiveConversation.host
       (LiveConversation.sessionRun
          (map LiveConversation.AudioProcess frames
             ++ [LiveConversation.Settle q true])%list s))
  = (LiveConversation.outbox (LiveConversation.host s)
       ++ map (pair q) (reactions ++ map frameInput frames))%list.
Proof.
  intros Hset Href Hp.
  destruct (frames_queue frames s q reactions Hset Href Hp)
    as (_ & _ & Hp' & Hout').
  rewrite sessionRun_app.
  unfold LiveConversation.sessionRun at 1.
  cbn [fold_left LiveConversation.sessionStep].
  unfold LiveConversation.settle. rewrite Hp'. simpl. now rewrite Hout'.
Qed.

Lemma queued_frames_sent_in_order_witness :
  let s := LiveConversation.sessionRun
             [LiveConversation.ClickStart;
              LiveConversation.UserMedia true;
              LiveConversation.Open]
             LiveConversation.initialSession in
  LiveConversation.outbox
    (LiveConversation.host
       (LiveConversation.sessionRun
          (map LiveConversation.AudioProcess [[0%Q]; [(1 # 2)%Q]]
             ++ [LiveConversation.Settle 3 true])%list s))
  = [(3%nat, frameInput [0%Q]); (3%nat, frameInput [(1 # 2)%Q])].
Proof.
  cbv zeta.
  exact (queued_frames_sent_in_order
           (LiveConversation.sessionRun
              [LiveConversation.ClickStart;
               LiveConversation.UserMedia true;
               LiveConversation.Open]
              LiveConversation.initialSession)
           [[0%Q]; [(1 # 2)%Q]] 3 [] eq_refl eq_refl eq_refl).
Defined.

Section StopFacts.
Import JS LiveConversation.



End StopFacts.


(** X12: a session started, granted the microphone, opened and then stopped,
    from any state: the status is idle, the stream is stopped and the output
    context closed, but the input context created by the start is still open
    and the capture handler still installed, so a frame processed after the
    stop is still queued on the session promise. *)
Theorem stop_leaves_capture_running
    (s : LiveConversation.Session) (inputData : list Q) :
  let f := LiveConversation.fresh (LiveConversation.host s) in
  let s' := LiveConversation.sessionRun
              [LiveConversation.ClickStart;
               LiveConversation.UserMedia true;
               LiveConversation.Open;
               LiveConversation.ClickStop] s in
  LiveConversation.status s' = LiveConversation.idle
  /\ (S (S f) ∉ LiveConversation.liveStreams (LiveConversation.host s'))
  /\ (S f ∉ LiveConversation.openContexts (LiveConversation.host s'))
  /\ (f ∈ LiveConversation.openContexts (LiveConversation.host s'))
  /\ LiveConversation.onaudioprocessSet s' = true
  /\ LiveConversation.promises
       (LiveConversation.host
          (LiveConversation.sessionStep
             (LiveConversation.AudioProcess inputData) s'))
     !! S (S (S f))
     = Some (LiveConversation.Pending [frameInput inputData]).
Proof.
  cbv zeta. unfold LiveConversation.sessionRun.
  cbn [fold_left LiveConversation.sessionStep].
  unfold LiveConversation.stopSession, LiveConversation.onOpen,
    LiveConversation.startSession_connect,
    LiveConversation.startSession_contexts. simpl.
  split; [reflexivity|].
  split; [rewrite elem_of_difference, elem_of_singleton; tauto|].
  split; [rewrite elem_of_difference, elem_of_singleton; tauto|].
  split.
  { rewrite elem_of_difference, !elem_of_union, !elem_of_singleton.
    split; [tauto|lia]. }
  split; [reflexivity|].
  unfold LiveConversation.onaudioprocess. simpl.
  unfold LiveConversation.promise_then. simpl.
  rewrite lookup_insert_eq. simpl. now rewrite lookup_insert_eq.
Qed.

Section VisualizerFacts.
Import LiveConversation.
Local Open Scope R_scope.

Lemma barHeight_cases height volume :
  0 <= height ->
  (volume <= 1 / 5 -> Rmin height (volume * 5 * height) = volume * 5 * height)
  /\ (1 / 5 <= volume -> Rmin height (volume * 5 * height) = height).
Proof.
  intros Hh. split; intros Hv.
  - apply Rmin_right. nra.
  - apply Rmin_left. nra.
Qed.

End VisualizerFacts.

(** X13: the bar of the visualizer, for a canvas of non-negative height and a
    non-negative volume: its height is five times the volume times the canvas
    height up to a volume of 0.2 and the canvas height from there on, so it
    never exceeds the canvas; it is centred in the canvas both ways; and a
    louder frame never gives a shorter bar. *)
Theorem drawVisualizer_bar (width height volume : R) :
  (0 <= height)%R -> (0 <= volume)%R ->
  let bar := LiveConversation.drawVisualizer width height volume in
  (0 <= LiveConversation.rect_h bar <= height)%R
  /\ ((volume <= 1 / 5)%R ->
      LiveConversation.rect_h bar = (volume * 5 * height)%R)
  /\ ((1 / 5 <= volume)%R -> LiveConversation.rect_h bar = height)
  /\ (LiveConversation.rect_y bar + LiveConversation.rect_h bar / 2
      = height / 2)%R
  /\ (LiveConversation.rect_x bar + LiveConversation.rect_w bar / 2
      = width / 2)%R
  /\ (forall louder, (volume <= louder)%R ->
        (LiveConversation.rect_h bar
         <= LiveConversation.rect_h
              (LiveConversation.drawVisualizer width height louder))%R).
Proof.
  intros Hh Hv. cbv zeta. unfold LiveConversation.drawVisualizer.
  cbn [LiveConversation.rect_h LiveConversation.rect_y
       LiveConversation.rect_x LiveConversation.rect_w].
  destruct (barHeight_cases height volume Hh) as [Hlow Hhigh].
  split.
  { destruct (Rle_dec volume (1 / 5)) as [H|H].
    - rewrite (Hlow H). nra.
    - rewrite Hhigh by lra. lra. }
  split; [exact Hlow|]. split; [exact Hhigh|].
  split; [lra|]. split; [lra|].
  intros louder Hl.
  destruct (barHeight_cases height louder Hh) as [Hlow' Hhigh'].
  destruct (Rle_dec louder (1 / 5)) as [H|H].
  - rewrite (Hlow' H), Hlow by lra. nra.
  - rewrite Hhigh' by lra.
    destruct (Rle_dec volume (1 / 5)) as [H'|H'].
    + rewrite (Hlow H'). nra.
    + rewrite Hhigh by lra. lra.
Qed.

Lemma drawVisualizer_bar_witness :
  (0 <= 100)%R /\ (0 <= 1 / 10)%R
  /\ LiveConversation.rect_h (LiveConversation.drawVisualizer 200 100 (1 / 10))
     = (1 / 10 * 5 * 100)%R.
Proof.
  assert (Hh : (0 <= 100)%R) by lra.
  assert (Hv : (0 <= 1 / 10)%R) by lra.
  split; [exact Hh|]. split; [exact Hv|].
  apply (proj1 (proj2 (drawVisualizer_bar 200 100 (1 / 10) Hh Hv))). lra.
Defined.

(* ===================================================================== *)
(** * Further properties: the history store *)
(* ===================================================================== *)

Lemma HistoryCodec_number_digits p :
  HistoryCodec.number (HistoryCodec.digits p) = Some p.
Proof.
  induction p as [p IH|p IH|]; cbn; [now rewrite IH..|reflexivity].
Qed.

Lemma HistoryCodec_parse_stringify items :
  HistoryCodec.parse (HistoryCodec.stringify items) = Some items.
Proof.
  unfold HistoryCodec.parse, HistoryCodec.stringify. cbn.
  rewrite HistoryCodec_number_digits. apply decode_encode.
Qed.

Lemma HistoryCodec_stringify_nonempty items :
  HistoryCodec.stringify items <> "".
Proof. discriminate. Qed.


Section HistoryMore.
Import HistoryService.

Context {HistoryItem : Type}.
Variable JSON_stringify : list HistoryItem -> string.
Variable JSON_parse : string -> option (JSONValue HistoryItem).
Variable quotaExceeded : string -> string -> gmap string string -> bool.

Hypothesis parse_stringify :
  forall items, JSON_parse (JSON_stringify items) = Some (JSONArray items).
Hypothesis stringify_nonempty :
  forall items, JSON_stringify items <> "".

(** X14: [clearHistory] leaves an empty history and every other key of the
    store as it was; clearing twice is clearing once; and the history after
    one save into a cleared store is the saved item alone when the write is
    accepted, and still empty when it is refused. *)
Theorem clearHistory_empties
    (localStorage : gmap string string) (item : HistoryItem) :
  let cleared := clearHistory localStorage in
  getHistory_value JSON_parse cleared = JSONArray []
  /\ getHistory (declared JSON_parse) cleared = []
  /\ cleared !! STORAGE_KEY = None
  /\ (forall key, key <> STORAGE_KEY ->
        cleared !! key = localStorage !! key)
  /\ clearHistory cleared = cleared
  /\ getHistory_value JSON_parse
       (saveHistoryItem JSON_stringify JSON_parse quotaExceeded item cleared)
     = if quotaExceeded STORAGE_KEY (JSON_stringify [item]) cleared
       then JSONArray []
       else JSONArray [item].
Proof.
  cbv zeta.
  assert (Hnone : clearHistory localStorage !! STORAGE_KEY = None)
    by apply lookup_delete_eq.
  assert (Hempty : getHistory_value JSON_parse (clearHistory localStorage)
                   = JSONArray []).
  { unfold getHistory_value. now rewrite Hnone. }
  split; [exact Hempty|].
  split; [now rewrite getHistory_declared, Hempty|].
  split; [exact Hnone|].
  split.
  { intros key Hkey. unfold clearHistory. now rewrite lookup_delete_ne. }
  split.
  { unfold clearHistory. apply delete_delete_eq. }
  destruct (quotaExceeded STORAGE_KEY (JSON_stringify [item])
              (clearHistory localStorage)) eqn:Hq.
  - rewrite saveHistoryItem_lost; [exact Hempty|]. now rewrite Hempty.
  - exact (proj2 (getHistory_value_save JSON_stringify JSON_parse
                    quotaExceeded parse_stringify stringify_nonempty
                    _ item [] Hempty Hq)).
Qed.





End HistoryMore.

Lemma clearHistory_empties_witness :
  HistoryService.getHistory_value HistoryService.Sample.parse
    (HistoryService.saveHistoryItem
       HistoryService.Sample.stringify HistoryService.Sample.parse
       (HistoryService.sizeQuota 1000) "c"%char
       (HistoryService.clearHistory
          {[ HistoryService.STORAGE_KEY := "[ab" ]}))
  = HistoryService.JSONArray ["c"%char].
Proof.
  exact (proj2 (proj2 (proj2 (proj2 (proj2
    (clearHistory_empties
       HistoryService.Sample.stringify HistoryService.Sample.parse
       (HistoryService.sizeQuota 1000)
       Sample_parse_stringify Sample_stringify_nonempty
       {[ HistoryService.STORAGE_KEY := "[ab" ]} "c"%char)))))).
Defined.


(* ===================================================================== *)
(** * Further properties: the application component *)
(* ===================================================================== *)

Section SortFacts.
Import JS.

Context {A : Type} (cmp : A -> A -> Q).

Lemma Array_insert_Permutation x l : Array_insert cmp x l ≡ₚ x :: l.
Proof.
  induction l as [|y l IH]; cbn; [reflexivity|].
  destruct (Qle_bool (cmp x y) 0); [reflexivity|].
  rewrite IH. apply perm_swap.
Qed.

Lemma Array_sort_Permutation l : Array_sort cmp l ≡ₚ l.
Proof.
  induction l as [|x l IH]; cbn; [reflexivity|].
  rewrite Array_insert_Permutation. now rewrite IH.
Qed.

(** An order the comparator decides: [cmp a b <= 0] exactly when [a] may
    stand before [b]. *)
Variable before : A -> A -> Prop.
Hypothesis cmp_before : forall a b, Qle_bool (cmp a b) 0 = true <-> before a b.
Hypothesis before_total : forall a b, before a b \/ before b a.
Hypothesis before_trans : forall a b c, before a b -> before b c -> before a c.

Lemma Array_insert_sorted x l :
  StronglySorted before l -> StronglySorted before (Array_insert cmp x l).
Proof.
  induction 1 as [|y l Hl IH Hy]; cbn.
  - repeat constructor.
  - destruct (Qle_bool (cmp x y) 0) eqn:E.
    + apply cmp_before in E. constructor; [now constructor|].
      constructor; [exact E|].
      eapply Forall_impl; [exact Hy|]. intros z Hz. eauto.
    + constructor; [exact IH|].
      rewrite Array_insert_Permutation. constructor; [|exact Hy].
      destruct (before_total x y) as [H|H]; [|exact H].
      apply cmp_before in H. congruence.
Qed.

Lemma Array_sort_sorted l : StronglySorted before (Array_sort cmp l).
Proof.
  induction l as [|x l IH]; cbn; [constructor|].
  now apply Array_insert_sorted.
Qed.

End SortFacts.

Lemma Qminus_le_0 (x y : Q) : (x - y <= 0)%Q <-> (x <= y)%Q.
Proof.
  rewrite (Qle_minus_iff (x - y) 0), (Qle_minus_iff x y).
  assert (E : (0 + - (x - y) == y + - x)%Q) by ring.
  now rewrite E.
Qed.

Lemma Qle_cases (x y : Q) : (x <= y)%Q \/ (y <= x)%Q.
Proof.
  destruct (Qlt_le_dec x y) as [H|H]; [left; now apply Qlt_le_weak|now right].
Qed.

Section AppFacts.
Import Types Constants App.

Lemma filter_level_ext (filterLevel : string) (items : list HistoryItem) :
  List.filter
    (fun item =>
       if negb (String.eqb filterLevel "ALL")
          && negb (String.eqb (levelString (levelId item)) filterLevel)
       then false else true) items
  = List.filter
      (fun item =>
         String.eqb filterLevel "ALL"
         || String.eqb (levelString (levelId item)) filterLevel) items.
Proof.
  apply List.filter_ext. intros item.
  now destruct (String.eqb filterLevel "ALL"),
               (String.eqb (levelString (levelId item)) filterLevel).
Qed.

Lemma historyCompare_sorted sort l :
  StronglySorted
    (fun a b =>
       match sort with
       | NEWEST => timestamp b <= timestamp a
       | OLDEST => timestamp a <= timestamp b
       | HIGHEST => score (item_evaluation b) <= score (item_evaluation a)
       | LOWEST => score (item_evaluation a) <= score (item_evaluation b)
       end%Q)
    (JS.Array_sort (historyCompare sort) l).
Proof.
  apply Array_sort_sorted.
  - intros a b. rewrite Qle_bool_iff.
    destruct sort; cbn [historyCompare]; apply Qminus_le_0.
  - intros a b. destruct sort; apply Qle_cases.
  - intros a b c. destruct sort; intros H1 H2; eapply Qle_trans; eauto.
Qed.

End AppFacts.

(** X16: the list shown in the history view holds exactly the items of the
    history state that pass the level filter (all of them for the filter
    "ALL"), each as often as it is in the state, and is in the selected
    order: newest or oldest first by timestamp, highest or lowest first by
    score. *)
Theorem getFilteredHistory_sorted (s : App.AppState) :
  let shown := App.getFilteredHistory s in
  shown ≡ₚ
    List.filter
      (fun item =>
         String.eqb (App.historyFilterLevel s) "ALL"
         || String.eqb (Types.levelString (Types.levelId item))
                       (App.historyFilterLevel s))
      (App.history s)
  /\ (forall item,
        In item shown <->
        In item (App.history s)
        /\ (App.historyFilterLevel s = "ALL"
            \/ Types.levelString (Types.levelId item)
               = App.historyFilterLevel s))
  /\ StronglySorted
       (fun a b =>
          match App.historySort s with
          | App.NEWEST => Types.timestamp b <= Types.timestamp a
          | App.OLDEST => Types.timestamp a <= Types.timestamp b
          | App.HIGHEST =>
              Types.score (Types.item_evaluation b)
              <= Types.score (Types.item_evaluation a)
          | App.LOWEST =>
              Types.score (Types.item_evaluation a)
              <= Types.score (Types.item_evaluation b)
          end%Q)
       shown.
Proof.
  cbv zeta. unfold App.getFilteredHistory. rewrite filter_level_ext.
  assert (Hperm := Array_sort_Permutation
                     (App.historyCompare (App.historySort s))
                     (List.filter
                        (fun item =>
                           String.eqb (App.historyFilterLevel s) "ALL"
                           || String.eqb
                                (Types.levelString (Types.levelId item))
                                (App.historyFilterLevel s))
                        (App.history s))).
  split; [exact Hperm|]. split.
  - intros item. split.
    + intros H. apply (Permutation_in _ Hperm), filter_In in H.
      destruct H as [Hin Hf]. split; [exact Hin|].
      apply orb_true_iff in Hf.
      destruct Hf as [Hf|Hf]; apply String.eqb_eq in Hf; auto.
    + intros [Hin Hf]. apply (Permutation_in _ (Permutation_sym Hperm)).
      apply filter_In. split; [exact Hin|]. apply orb_true_iff.
      destruct Hf as [Hf|Hf]; [left|right]; now apply String.eqb_eq.
  - apply historyCompare_sorted.
Qed.


(** X18: the back button is shown exactly in the views in which [goBack]
    changes the view; from every view but the splash screen three uses of it
    lead to the home view, where it changes nothing; and leaving an
    evaluation opened from the history leads back to the history and clears
    the mark. *)
Theorem goBack_leads_home (s : App.AppState) :
  (App.backButtonShown s = true
   <-> App.view (App.goBack s) <> App.view s)
  /\ (App.view s <> Types.SPLASH ->
      App.view (App.goBack (App.goBack (App.goBack s))) = Types.HOME)
  /\ (App.view s = Types.HOME -> App.goBack s = s)
  /\ (App.view s = Types.EVALUATION -> App.fromHistory s = true ->
      App.view (App.goBack s) = Types.HISTORY
      /\ App.fromHistory (App.goBack s) = false).
Proof.
  destruct s as [v l t q ua ev ld lt tip h fh hf hs rec].
  unfold App.backButtonShown, App.goBack. cbn.
  repeat split; destruct v, fh; cbn; try congruence; try discriminate;
    try (intros _; discriminate); try (intros H; now contradiction H).
Qed.

Lemma goBack_leads_home_witness :
  let s := App.setFromHistory true
             (App.setView Types.EVALUATION App.initialState) in
  App.view s <> Types.SPLASH
  /\ App.view (App.goBack (App.goBack (App.goBack s))) = Types.HOME.
Proof.
  cbv zeta.
  assert (H : App.view (App.setFromHistory true
                          (App.setView Types.EVALUATION App.initialState))
              <> Types.SPLASH) by discriminate.
  split; [exact H|].
  exact (proj1 (proj2 (goBack_leads_home _)) H).
Defined.

(** X19: [openHistoryItem] shows the item's question, answer and evaluation,
    with a level of the level table that has the item's level (the fallback
    to the first level is never needed) and a topic that has the item's topic
    name; the back button then leads to the history view. *)
Theorem openHistoryItem_restores
    (item : Types.HistoryItem) (s : App.AppState) :
  let s' := App.openHistoryItem item s in
  (exists l, App.level s' = Some l
             /\ In l Constants.LEVELS
             /\ Types.level_id l = Types.levelId item)
  /\ (exists t, App.topic s' = Some t
                /\ Types.name t = Types.topicName item)
  /\ App.question s' = Types.item_question item
  /\ App.userAnswer s' = Types.item_userAnswer item
  /\ App.evaluation s' = Some (Types.item_evaluation item)
  /\ App.view s' = Types.EVALUATION
  /\ App.view (App.goBack s') = Types.HISTORY
  /\ App.fromHistory (App.goBack s') = false.
Proof.
  cbv zeta. unfold App.openHistoryItem.
  split.
  { cbn. destruct (Types.levelId item); cbn; eexists;
      (split; [reflexivity|]); (split; [|reflexivity]); cbn; tauto. }
  split.
  { cbn [App.topic App.setView App.setFromHistory App.setEvaluation
         App.setUserAnswer App.setQuestion App.setTopic App.setLevel].
    destruct (List.find
                (fun t => String.eqb (Types.name t) (Types.topicName item))
                Constants.TOPICS) as [t|] eqn:E.
    - exists t. split; [reflexivity|].
      apply find_some in E. now apply String.eqb_eq.
    - eexists. split; reflexivity. }
  repeat split.
Qed.

Section SubmitFacts.
Import Types Constants App.

Variable JSON_stringify : list HistoryItem -> string.
Variable JSON_parse : string -> option (HistoryService.JSONValue HistoryItem).
Variable quotaExceeded : string -> string -> gmap string string -> bool.

Hypothesis parse_stringify :
  forall items,
    JSON_parse (JSON_stringify items) = Some (HistoryService.JSONArray items).
Hypothesis stringify_nonempty :
  forall items, JSON_stringify items <> "".

Variable evaluateAnswer :
  CEFRLevel -> string -> string -> string -> option EvaluationResult.

(** [handleSubmit] on an answer that is evaluated. *)
Lemma handleSubmit_evaluated uuid now (localStorage : gmap string string)
    s l t result :
  level s = Some l -> topic s = Some t -> userAnswer s <> "" ->
  evaluateAnswer (level_id l) (name t) (question s) (userAnswer s)
  = Some result ->
  handleSubmit JSON_stringify JSON_parse quotaExceeded evaluateAnswer
    uuid now localStorage s
  = (HistoryService.saveHistoryItem JSON_stringify JSON_parse quotaExceeded
       (submittedItem uuid now l t s result) localStorage,
     setLoading false
       (setView EVALUATION
          (setEvaluation (Some result)
             (setLoading true
                (setLoadingText "Analyzing your response..." s))))).
Proof.
  intros Hl Ht Hne He. unfold handleSubmit. rewrite Hl, Ht.
  apply String.eqb_neq in Hne. rewrite Hne, He. reflexivity.
Qed.


(** X21: after a successful submit whose item was stored (the store held a
    list and the write was accepted), the question just answered is the
    first of the questions to avoid for the same level and topic, there are
    at most 15 of them, and [handleNextQuestion] hands exactly this list to
    the question generator. *)
Theorem next_question_avoids_last
    (generateQuestion : CEFRLevel -> string -> list string -> option string)
    (uuid : string) (now : Q)
    (localStorage : gmap string string) (s : AppState)
    (l : LevelDetails) (t : Topic) (result : EvaluationResult)
    (prior : list HistoryItem) :
  level s = Some l -> topic s = Some t -> userAnswer s <> "" ->
  evaluateAnswer (level_id l) (name t) (question s) (userAnswer s)
  = Some result ->
  HistoryService.getHistory_value JSON_parse localStorage
  = HistoryService.JSONArray prior ->
  quotaExceeded HistoryService.STORAGE_KEY
    (JSON_stringify (take 50 (submittedItem uuid now l t s result :: prior)))
    localStorage = false ->
  let r := handleSubmit JSON_stringify JSON_parse quotaExceeded
             evaluateAnswer uuid now localStorage s in
  exists savedHistory rest,
    HistoryService.getHistory_value JSON_parse r.1
    = HistoryService.JSONArray savedHistory
    /\ previousQuestions savedHistory l t = question s :: rest
    /\ (length (question s :: rest) <= 15)%nat
    /\ question (handleNextQuestion JSON_parse generateQuestion r.1 r.2)
       = match generateQuestion (level_id l) (name t) (question s :: rest)
         with
         | Some q => q
         | None => "Could not generate a new question. Please try again."
         end.
Proof.
  intros Hl Ht Hne He Hprior Hq. cbv zeta.
  rewrite (handleSubmit_evaluated uuid now localStorage s l t result
             Hl Ht Hne He).
  cbn [fst snd].
  destruct (getHistory_value_save JSON_stringify JSON_parse quotaExceeded
              parse_stringify stringify_nonempty localStorage
              (submittedItem uuid now l t s result) prior Hprior Hq)
    as [_ Hget].
  assert (Hprev : exists rest,
    previousQuestions
      (submittedItem uuid now l t s result :: take 49 prior) l t
    = question s :: rest).
  { unfold previousQuestions, submittedItem.
    cbn [List.filter levelId topicName].
    rewrite bool_decide_eq_true_2 by reflexivity.
    rewrite String.eqb_refl. cbn [andb map item_question take].
    eauto. }
  destruct Hprev as [rest Hprev].
  exists (submittedItem uuid now l t s result :: take 49 prior), rest.
  split; [exact Hget|]. split; [exact Hprev|]. split.
  - rewrite <- Hprev. unfold previousQuestions. rewrite length_take. lia.
  - unfold handleNextQuestion.
    cbn [level topic setLoading setView setEvaluation setLoadingText].
    rewrite Hl, Ht, Hget, Hprev.
    now destruct (generateQuestion (level_id l) (name t)
                    (question s :: rest)).
Qed.

End SubmitFacts.

Lemma HistoryCodec_parse_value_stringify items :
  HistoryCodec.parse_value (HistoryCodec.stringify items)
  = Some (HistoryService.JSONArray items).
Proof.
  unfold HistoryCodec.parse_value.
  now rewrite HistoryCodec_parse_stringify.
Qed.


Lemma next_question_avoids_last_witness :
  App.userAnswer HistoryCodec.sampleState <> ""
  /\ HistoryService.getHistory_value HistoryCodec.parse_value ∅
     = HistoryService.JSONArray []
  /\ exists savedHistory rest,
       HistoryService.getHistory_value HistoryCodec.parse_value
         (App.handleSubmit HistoryCodec.stringify HistoryCodec.parse_value
            (fun _ _ _ => false)
            HistoryCodec.sampleEvaluate "id-1" 1000 ∅
            HistoryCodec.sampleState).1
       = HistoryService.JSONArray savedHistory
       /\ App.previousQuestions savedHistory
            HistoryCodec.sampleLevel HistoryCodec.sampleTopic
          = "What do you drink?" :: rest.
Proof.
  assert (Hne : App.userAnswer HistoryCodec.sampleState <> "")
    by discriminate.
  assert (Hprior :
    HistoryService.getHistory_value HistoryCodec.parse_value ∅
    = HistoryService.JSONArray []) by reflexivity.
  split; [exact Hne|]. split; [exact Hprior|].
  destruct (next_question_avoids_last
              HistoryCodec.stringify HistoryCodec.parse_value
              (fun _ _ _ => false)
              HistoryCodec_parse_value_stringify
              HistoryCodec_stringify_nonempty
              HistoryCodec.sampleEvaluate (fun _ _ _ => None)
              "id-1" 1000 ∅ HistoryCodec.sampleState
              HistoryCodec.sampleLevel HistoryCodec.sampleTopic
              HistoryCodec.sampleEvaluation []
              eq_refl eq_refl Hne eq_refl Hprior eq_refl)
    as (savedHistory & rest & Hget & H & _).
  exists savedHistory, rest. split; [exact Hget | exact H].
Defined.

(** X22: transcripts are added to the answer with one space between them and
    none in front: after a first transcript that is not empty, the answer is
    the transcripts joined by single spaces. *)
Theorem appendTranscript_joins (first : string) (more : list string) :
  first <> "" ->
  fold_left App.appendTranscript (first :: more) ""
  = String.concat " " (first :: more)
  /\ App.appendTranscript "" first = first.
Proof.
  intros Hne.
  assert (H0 : App.appendTranscript "" first = first) by reflexivity.
  split; [|exact H0].
  cbn [fold_left]. rewrite H0. clear H0.
  revert first Hne. induction more as [|t more IH]; intros first Hne.
  - reflexivity.
  - cbn [fold_left]. unfold App.appendTranscript at 2.
    apply String.eqb_neq in Hne. rewrite Hne.
    rewrite IH.
    + change (String.concat " " (first :: t :: more))
        with (first ++ " " ++ String.concat " " (t :: more)).
      destruct more as [|t' more].
      * reflexivity.
      * change (String.concat " " ((first ++ " " ++ t) :: t' :: more))
          with ((first ++ " " ++ t) ++ " "
                ++ String.concat " " (t' :: more)).
        change (String.concat " " (t :: t' :: more))
          with (t ++ " " ++ String.concat " " (t' :: more)).
        now rewrite !string_append_assoc.
    + apply String.eqb_neq in Hne. destruct first; [contradiction|].
      discriminate.
Qed.

Lemma appendTranscript_joins_witness :
  "I like" <> ""
  /\ fold_left App.appendTranscript ["I like"; "green"; "tea"] ""
     = "I like green tea".
Proof.
  assert (Hne : "I like" <> "") by discriminate.
  split; [exact Hne|].
  exact (proj1 (appendTranscript_joins "I like" ["green"; "tea"] Hne)).
Defined.

(* ===================================================================== *)
(** * Further properties: the service layer *)
(* ===================================================================== *)

Section ServiceFacts.
Import JS LiveConversation GeminiService.

Lemma generateSpeech_data generateContent text base64Audio :
  generateContent {| speech_model := "gemini-2.5-flash-preview-tts";
                     speech_text := text;
                     speech_voiceName := "Kore" |}
  = Some (Some base64Audio) ->
  base64Audio <> "" ->
  generateSpeech generateContent text
  = match decodeAudio base64Audio with
    | Some bytes => Returns {| buffer_bytes := bytes |}
    | None => Rejects (HostError InvalidCharacterError)
    end.
Proof.
  intros Hg Hne. unfold generateSpeech, decodeAudio. rewrite Hg.
  apply String.eqb_neq in Hne. rewrite Hne.
  now destruct (atob base64Audio).
Qed.

Lemma encodePCM_nonempty bytes : bytes <> [] -> encodePCM bytes <> "".
Proof.
  intros Hne H. apply Hne.
  assert (E : decodeAudio (encodePCM bytes) = Some []).
  { rewrite H. reflexivity. }
  rewrite decodeAudio_of_encodePCM in E. now injection E.
Qed.

End ServiceFacts.

(** X23: [generateSpeech] returns exactly the octets that [decodeAudio] of
    the live-conversation component gives for the same data, and rejects with
    the host's error when the data is not base64; it rejects for want of
    audio when the answer has no inline data or an empty one, and with the
    call's failure when the call fails. *)
Theorem generateSpeech_decodes
    (generateContent : GeminiService.SpeechRequest -> option (option string))
    (text : string) :
  match generateContent
          {| GeminiService.speech_model := "gemini-2.5-flash-preview-tts";
             GeminiService.speech_text := text;
             GeminiService.speech_voiceName := "Kore" |} with
  | None =>
      GeminiService.generateSpeech generateContent text
      = GeminiService.Rejects GeminiService.CallFailed
  | Some None =>
      GeminiService.generateSpeech generateContent text
      = GeminiService.Rejects GeminiService.NoAudioData
  | Some (Some base64Audio) =>
      (base64Audio = "" ->
       GeminiService.generateSpeech generateContent text
       = GeminiService.Rejects GeminiService.NoAudioData)
      /\ (base64Audio <> "" ->
          GeminiService.generateSpeech generateContent text
          = match LiveConversation.decodeAudio base64Audio with
            | Some bytes =>
                GeminiService.Returns
                  {| GeminiService.buffer_bytes := bytes |}
            | None =>
                GeminiService.Rejects
                  (GeminiService.HostError JS.InvalidCharacterError)
            end)
  end.
Proof.
  destruct (generateContent _) as [[base64Audio|]|] eqn:E.
  - split.
    + intros ->. unfold GeminiService.generateSpeech. now rewrite E.
    + intros Hne. now apply generateSpeech_data.
  - unfold GeminiService.generateSpeech. now rewrite E.
  - unfold GeminiService.generateSpeech. now rewrite E.
Qed.

(** X24: the data [transcribeAudio] sends for a recording is the encoding of
    its octets under its media type; handed to [generateSpeech] as the
    answer's audio it gives the recording back, octet for octet, unless the
    recording is empty: its data is then the empty string, which
    [generateSpeech] takes for missing audio. *)
Theorem transcribe_data_roundtrip
    (audioBlob : GeminiService.Blob) (text : string) :
  let request := GeminiService.transcribeRequest audioBlob in
  let echo := fun _ : GeminiService.SpeechRequest =>
                Some (Some (GeminiService.transcribe_data request)) in
  GeminiService.transcribe_mimeType request
  = GeminiService.blob_type audioBlob
  /\ LiveConversation.decodeAudio (GeminiService.transcribe_data request)
     = Some (GeminiService.blob_bytes audioBlob)
  /\ (GeminiService.blob_bytes audioBlob <> [] ->
      GeminiService.generateSpeech echo text
      = GeminiService.Returns
          {| GeminiService.buffer_bytes :=
               GeminiService.blob_bytes audioBlob |})
  /\ (GeminiService.blob_bytes audioBlob = [] ->
      GeminiService.generateSpeech echo text
      = GeminiService.Rejects GeminiService.NoAudioData).
Proof.
  cbv zeta.
  assert (Hd : GeminiService.transcribe_data
                 (GeminiService.transcribeRequest audioBlob)
               = LiveConversation.encodePCM
                   (GeminiService.blob_bytes audioBlob)) by reflexivity.
  split; [reflexivity|]. rewrite Hd.
  split; [apply decodeAudio_of_encodePCM|]. split.
  - intros Hne.
    rewrite (generateSpeech_data _ text
               (LiveConversation.encodePCM
                  (GeminiService.blob_bytes audioBlob)) eq_refl
               (encodePCM_nonempty _ Hne)).
    now rewrite decodeAudio_of_encodePCM.
  - intros ->. reflexivity.
Qed.

Lemma transcribe_data_roundtrip_witness :
  let audioBlob := {| GeminiService.blob_type := "audio/webm";
                      GeminiService.blob_bytes := [x1a; x45; xdf; xa3] |} in
  GeminiService.blob_bytes audioBlob <> []
  /\ GeminiService.generateSpeech
       (fun _ => Some (Some (GeminiService.transcribe_data
                               (GeminiService.transcribeRequest audioBlob))))
       "hello"
     = GeminiService.Returns
         {| GeminiService.buffer_bytes := [x1a; x45; xdf; xa3] |}.
Proof.
  cbv zeta.
  assert (Hne : GeminiService.blob_bytes
                  {| GeminiService.blob_type := "audio/webm";
                     GeminiService.blob_bytes := [x1a; x45; xdf; xa3] |}
                <> []) by discriminate.
  split; [exact Hne|].
  exact (proj1 (proj2 (proj2
    (transcribe_data_roundtrip
       {| GeminiService.blob_type := "audio/webm";
          GeminiService.blob_bytes := [x1a; x45; xdf; xa3] |} "hello")))
    Hne).
Defined.

(** X25: a cancelled [handleClearHistory] changes nothing; a confirmed one
    empties the history state and the stored history, so the history view
    shows nothing, also after [loadHistory] reads the store again, and every
    other key of the store is kept. *)
Theorem handleClearHistory_confirmed
    (JSON_parse : string -> option (list Types.HistoryItem))
    (localStorage : gmap string string) (s : App.AppState) :
  App.handleClearHistory false localStorage s = (localStorage, s)
  /\ let r := App.handleClearHistory true localStorage s in
     App.history r.2 = []
     /\ App.getFilteredHistory r.2 = []
     /\ (forall s0, App.getFilteredHistory
                      (App.loadHistory JSON_parse r.1 s0) = [])
     /\ (forall key, key <> HistoryService.STORAGE_KEY ->
                     r.1 !! key = localStorage !! key).
Proof.
  split; [reflexivity|]. cbv zeta. cbn [App.handleClearHistory fst snd].
  assert (Hempty : HistoryService.getHistory JSON_parse
                     (HistoryService.clearHistory localStorage) = []).
  { unfold HistoryService.getHistory, HistoryService.clearHistory.
    now rewrite lookup_delete_eq. }
  split; [reflexivity|]. split; [reflexivity|]. split.
  - intros s0. unfold App.getFilteredHistory, App.loadHistory.
    cbn [App.history App.setHistorySort App.setHistoryFilterLevel
         App.setView App.setHistory].
    now rewrite Hempty.
  - intros key Hkey. unfold HistoryService.clearHistory.
    now rewrite lookup_delete_ne.
Qed.

Section OpenFacts.
Import LiveConversation.

Lemma sessionStep_installed e s :
  (status s = connected -> onaudioprocessSet s = true) ->
  (status (sessionStep e s) = connected ->
   onaudioprocessSet (sessionStep e s) = true)
  /\ (onaudioprocessSet (sessionStep e s) = true ->
      onaudioprocessSet s = true \/ e = Open).
Proof.
  intros Hinv.
  destruct e as [| |[|]|q fulfilled| | | | |inputData|]; cbn [sessionStep].
  - split; [discriminate|auto].
  - split; [discriminate|auto].
  - split; [exact Hinv|auto].
  - split; [discriminate|auto].
  - unfold settle.
    destruct (promises (host s) !! q) as [[reactions| |]|]; auto.
    destruct fulfilled; cbn; split; auto; discriminate.
  - split; [reflexivity|auto].
  - split; [discriminate|auto].
  - split; [discriminate|auto].
  - unfold stopSession. cbn. split; [discriminate|auto].
  - destruct (onaudioprocessSet s) eqn:E; [|rewrite E; auto].
    unfold onaudioprocess. cbn.
    destruct (sessionPromiseRef s); cbn; rewrite E; auto.
  - split; [discriminate|auto].
Qed.

End OpenFacts.

(** X26: after any events from the initial session, a connected status means
    the capture handler is installed, and the handler is installed only if
    the transport's open event is among the events: no frame is processed
    before the transport has opened. *)
Theorem capture_installed_by_open
    (events : list LiveConversation.SessionEvent) :
  let s := LiveConversation.sessionRun events
             LiveConversation.initialSession in
  (LiveConversation.status s = LiveConversation.connected ->
   LiveConversation.onaudioprocessSet s = true)
  /\ (LiveConversation.onaudioprocessSet s = true ->
      In LiveConversation.Open events).
Proof.
  cbv zeta.
  induction events as [|e events IH] using rev_ind.
  - split; discriminate.
  - rewrite sessionRun_app.
    unfold LiveConversation.sessionRun at 1 3. cbn [fold_left].
    destruct IH as [IH1 IH2].
    destruct (sessionStep_installed e _ IH1) as [H1 H2].
    split; [exact H1|]. intros H. apply in_or_app.
    destruct (H2 H) as [H' | ->]; [left; auto|right; now left].
Qed.

(* ===================================================================== *)
(** * Further properties: what a session leaves behind *)
(* ===================================================================== *)

Section LeakFacts.
Import LiveConversation.

Lemma promise_then_contexts q input h :
  openContexts (promise_then q input h) = openContexts h
  /\ fresh (promise_then q input h) = fresh h.
Proof.
  unfold promise_then. now destruct (promises h !! q) as [[reactions| |]|].
Qed.

Lemma sessionStep_refBelowFresh e s :
  refBelowFresh s -> refBelowFresh (sessionStep e s).
Proof.
  intros Hinv ctx.
  destruct e as [| |[|]|q ok| | | | |inputData|]; cbn [sessionStep].
  - cbn. intros [= <-]. lia.
  - apply Hinv.
  - cbn. intros H. apply Hinv in H. lia.
  - apply Hinv.
  - unfold settle.
    destruct (promises (host s) !! q) as [[reactions| |]|]; try apply Hinv.
    destruct ok; cbn; apply Hinv.
  - apply Hinv.
  - apply Hinv.
  - apply Hinv.
  - unfold stopSession.
    destruct (streamRef s), (audioContextRef s) eqn:E; cbn; rewrite ?E;
      intros H; apply Hinv; congruence.
  - destruct (onaudioprocessSet s); [|apply Hinv].
    unfold onaudioprocess. cbn.
    destruct (sessionPromiseRef s) as [q|]; cbn; [|apply Hinv].
    rewrite (proj2 (promise_then_contexts q _ (host s))). apply Hinv.
  - cbn. intros H. apply Hinv in H. lia.
Qed.

Lemma sessionRun_refBelowFresh events :
  refBelowFresh (sessionRun events initialSession).
Proof.
  unfold sessionRun.
  assert (H0 : refBelowFresh initialSession) by (intros ctx; discriminate).
  revert H0. generalize initialSession as s.
  induction events as [|e events IH]; intros s Hinv; [exact Hinv|].
  cbn [fold_left]. apply IH. now apply sessionStep_refBelowFresh.
Qed.

(** No handler closes a context that the ref does not hold. *)
Lemma sessionStep_leaked ctx e s :
  contextLeaked ctx s -> contextLeaked ctx (sessionStep e s).
Proof.
  intros (Hopen & Hlt & Href). unfold contextLeaked.
  destruct e as [| |[|]|q ok| | | | |inputData|]; cbn [sessionStep].
  - cbn. split; [set_solver|]. split; [lia|]. intros [= E]. lia.
  - cbn. auto.
  - cbn. split; [exact Hopen|]. split; [lia|exact Href].
  - cbn. auto.
  - unfold settle.
    destruct (promises (host s) !! q) as [[reactions| |]|]; auto.
    destruct ok; cbn; auto.
  - cbn. auto.
  - cbn. auto.
  - cbn. auto.
  - unfold stopSession.
    destruct (streamRef s), (audioContextRef s) as [c|] eqn:E; cbn;
      rewrite ?E; repeat split; auto.
    + apply elem_of_difference. split; [exact Hopen|].
      rewrite elem_of_singleton. congruence.
    + apply elem_of_difference. split; [exact Hopen|].
      rewrite elem_of_singleton. congruence.
  - destruct (onaudioprocessSet s); [|auto].
    unfold onaudioprocess. cbn.
    destruct (sessionPromiseRef s) as [q|]; cbn; [|auto].
    destruct (promise_then_contexts q
                {| mimeType := "audio/pcm;rate=16000";
                   data := framePCM inputData |} (host s)) as [-> ->].
    auto.
  - cbn. split; [set_solver|]. split; [lia|exact Href].
Qed.

Lemma sessionRun_leaked ctx events :
  forall s, contextLeaked ctx s -> contextLeaked ctx (sessionRun events s).
Proof.
  unfold sessionRun.
  induction events as [|e events IH]; intros s Hinv; [exact Hinv|].
  cbn [fold_left]. apply IH. now apply sessionStep_leaked.
Qed.



End LeakFacts.

(** X27: the input context that a start creates is never closed, whatever
    comes after it (a stop, an error, another start): [stopSession] closes
    only the context in the ref, and the ref never holds an input context.
    The same holds when the start fails at the output context: the status
    is then the error status, the refs are as they were, and the input
    context created just before is left open. *)
Theorem input_context_never_closed
    (before after : list LiveConversation.SessionEvent) :
  let s := LiveConversation.sessionRun before
             LiveConversation.initialSession in
  let inputCtx := LiveConversation.fresh (LiveConversation.host s) in
  let failed :=
    LiveConversation.sessionStep LiveConversation.OutputContextFailure s in
  (inputCtx ∈ LiveConversation.openContexts
                (LiveConversation.host
                   (LiveConversation.sessionRun after
                      (LiveConversation.sessionStep
                         LiveConversation.ClickStart s))))
  /\ (inputCtx ∈ LiveConversation.openContexts
                   (LiveConversation.host
                      (LiveConversation.sessionRun after failed)))
  /\ LiveConversation.status failed = LiveConversation.error
  /\ LiveConversation.audioContextRef failed
     = LiveConversation.audioContextRef s
  /\ LiveConversation.streamRef failed = LiveConversation.streamRef s.
Proof.
  cbv zeta.
  pose proof (sessionRun_refBelowFresh before) as Href.
  split; [|split; [|repeat split]].
  - apply (sessionRun_leaked _ after). unfold contextLeaked. cbn.
    split; [set_solver|]. split; [lia|]. intros [= E]. lia.
  - apply (sessionRun_leaked _ after). unfold contextLeaked. cbn.
    split; [set_solver|]. split; [lia|]. intros E.
    apply Href in E. lia.
Qed.

